(** * LLM proxy pipeline and multi-model router: model and properties

    Shallow embedding of three Go files of the repository:

    - [first-questions/multi-model-router.go]: [ModelRouter] with
      [RegisterProvider], [SetFallbacks], [RouteRequest], [tryFallbacks],
      and the example [OpenAIProvider];
    - the proxy file ([LLMProxy]): [ProcessRequest], [checkRateLimits],
      [recordMetrics], [makeRequestWithRetries];
    - the HTTP client example: [makeAPIRequest].

    Conventions.
    - Go's [int], [int64] and [time.Duration] are 64-bit signed integers;
      they are values of [Z] and every arithmetic operation of the source
      is followed by [wrap64], Go's two's-complement wrap-around.
    - Go's [float64] cost values are the rationals [Q] they denote:
      finite values, no NaN. Comparing two of them is exact; adding
      two of them is not, and the proxy's [+=] on costs is the
      surroundings' [addCost], which stands for float64's rounded
      addition (the exact sum is one instance).
    - Calls that leave the program (a provider's [GenerateText] and
      [IsAvailable], the proxy's [makeRequest], the [select] on
      [ctx.Done()] and [time.After], the clock) are answered by oracles
      that see the whole history of earlier external calls; each call is
      appended to that history, which doubles as the observable trace.
    - Each call is modelled sequentially: locks are not represented. *)

From Stdlib Require Import ZArith QArith Lia.
From stdpp Require Import base option list gmap strings.

Local Open Scope Z_scope.

(** ** 64-bit signed arithmetic *)

Definition wrap64 (x : Z) : Z := (x + 2 ^ 63) mod 2 ^ 64 - 2 ^ 63.
Definition in_int64 (x : Z) : Prop := - 2 ^ 63 <= x < 2 ^ 63.

Definition add64 (x y : Z) : Z := wrap64 (x + y).
Definition mul64 (x y : Z) : Z := wrap64 (x * y).
(** [x << n] on an [int64] for a count [n >= 0]: the bits shifted out are
    lost, and a count of 64 or more gives 0. *)
Definition shl64 (x n : Z) : Z := wrap64 (Z.shiftl x n).

(** Go's [(value, error)] pairs: the value is meaningful only when the
    error is nil. *)
Inductive result (A E : Type) : Type :=
| Ok (a : A)
| Err (e : E).
Arguments Ok {A E} a.
Arguments Err {A E} e.

Definition is_ok {A E} (r : result A E) : bool :=
  match r with Ok _ => true | Err _ => false end.

(** The sum of a list of integers. *)
Definition sumZ (l : list Z) : Z := fold_right Z.add 0 l.

(** ** The router: [multi-model-router.go] *)

Module Router.

(** [type Provider string] *)
Definition Provider := string.

Record ModelRequest := mkModelRequest {
  req_Prompt : string;
  req_MaxTokens : Z;
  req_Temperature : Q;
  req_Provider : Provider;
  req_ModelName : string;
  req_Metadata : gmap string string
}.

Record ModelResponse := mkModelResponse {
  resp_Text : string;
  resp_Provider : Provider;
  resp_ModelName : string;
  resp_TokensUsed : Z;
  resp_Latency : Z;
  resp_Metadata : gmap string string
}.

(** The three errors the router creates with [errors.New]. *)
Inductive RouterError :=
| ProviderNotFound
| NoFallbacksConfigured
| AllFallbacksFailed.

Definition error_text (e : RouterError) : string :=
  match e with
  | ProviderNotFound => "provider not found"
  | NoFallbacksConfigured => "no fallbacks configured"
  | AllFallbacksFailed => "all fallbacks failed"
  end.

(** A provider's own error is an opaque message; the router never
    returns it. *)
Definition ProviderError := string.

(** One entry per call of a provider method. *)
Inductive event :=
| EvIsAvailable (id : Provider) (answer : bool)
| EvGenerateText (id : Provider) (req : ModelRequest)
                 (answer : result ModelResponse ProviderError).

(** [type ModelProvider interface]: both methods are external; they
    answer as a function of the history of provider calls so far. *)
Record ModelProvider := mkModelProvider {
  GenerateText : list event -> ModelRequest -> result ModelResponse ProviderError;
  IsAvailable : list event -> bool
}.

Record ModelRouter := mkModelRouter {
  providers : gmap string ModelProvider;
  fallbacks : gmap string (list string)
}.

Definition NewModelRouter : ModelRouter :=
  {| providers := ∅; fallbacks := ∅ |}.

Definition RegisterProvider (r : ModelRouter) (provider : Provider)
    (client : ModelProvider) : ModelRouter :=
  {| providers := <[provider := client]> (providers r);
     fallbacks := fallbacks r |}.

Definition SetFallbacks (r : ModelRouter) (modelName : string)
    (fallbackModels : list string) : ModelRouter :=
  {| providers := providers r;
     fallbacks := <[modelName := fallbackModels]> (fallbacks r) |}.

(** [fallbackReq := req; fallbackReq.ModelName = fallbackModel] *)
Definition withModelName (req : ModelRequest) (m : string) : ModelRequest :=
  {| req_Prompt := req_Prompt req;
     req_MaxTokens := req_MaxTokens req;
     req_Temperature := req_Temperature req;
     req_Provider := req_Provider req;
     req_ModelName := m;
     req_Metadata := req_Metadata req |}.

Definition callIsAvailable (id : Provider) (p : ModelProvider)
    (h : list event) : bool * list event :=
  let b := IsAvailable p h in (b, h ++ [EvIsAvailable id b]).

Definition callGenerateText (id : Provider) (p : ModelProvider)
    (req : ModelRequest) (h : list event)
    : result ModelResponse ProviderError * list event :=
  let a := GenerateText p h req in (a, h ++ [EvGenerateText id req a]).

(** The [for _, fallbackModel := range fallbacks] loop of
    [tryFallbacks]. *)
Fixpoint tryCandidates (r : ModelRouter) (req : ModelRequest)
    (candidates : list string) (h : list event)
    : result ModelResponse RouterError * list event :=
  match candidates with
  | [] => (Err AllFallbacksFailed, h)
  | fallbackModel :: rest =>
      let fallbackReq := withModelName req fallbackModel in
      match providers r !! req_Provider req with
      | None => tryCandidates r req rest h
      | Some provider =>
          let '(avail, h1) := callIsAvailable (req_Provider req) provider h in
          if avail then
            let '(a, h2) :=
              callGenerateText (req_Provider req) provider fallbackReq h1 in
            match a with
            | Ok resp => (Ok resp, h2)
            | Err _ => tryCandidates r req rest h2
            end
          else tryCandidates r req rest h1
      end
  end.

Definition tryFallbacks (r : ModelRouter) (req : ModelRequest)
    (h : list event) : result ModelResponse RouterError * list event :=
  match fallbacks r !! req_ModelName req with
  | None => (Err NoFallbacksConfigured, h)
  | Some chain => tryCandidates r req chain h
  end.

Definition RouteRequest (r : ModelRouter) (req : ModelRequest)
    (h : list event) : result ModelResponse RouterError * list event :=
  match providers r !! req_Provider req with
  | None => (Err ProviderNotFound, h)
  | Some provider =>
      let '(avail, h1) := callIsAvailable (req_Provider req) provider h in
      if avail then
        let '(a, h2) := callGenerateText (req_Provider req) provider req h1 in
        match a with
        | Ok resp => (Ok resp, h2)
        | Err _ => tryFallbacks r req h2
        end
      else tryFallbacks r req h1
  end.

(** *** Reading a trace *)

(** The generation calls of a trace, oldest first. *)
Fixpoint generations (tr : list event)
    : list (Provider * ModelRequest * result ModelResponse ProviderError) :=
  match tr with
  | [] => []
  | EvGenerateText id req a :: t => (id, req, a) :: generations t
  | EvIsAvailable _ _ :: t => generations t
  end.

(** The model names generation was attempted with, oldest first. *)
Definition attempted_models (tr : list event) : list string :=
  map (fun g => req_ModelName (snd (fst g))) (generations tr).

(** Every generation call directly follows an availability check of
    the same provider that answered [true]. *)
Fixpoint guarded (tr : list event) : bool :=
  match tr with
  | [] => true
  | EvIsAvailable id true :: EvGenerateText id' _ _ :: t =>
      bool_decide (id = id') && guarded t
  | EvIsAvailable _ _ :: t => guarded t
  | EvGenerateText _ _ _ :: _ => false
  end.

(** A generation call that returned an error. *)
Definition failed_generation
    (g : Provider * ModelRequest * result ModelResponse ProviderError) : Prop :=
  is_ok (snd g) = false.

(** Whether the primary attempt of [RouteRequest] returns a response:
    the provider is available and its generation for the request
    succeeds. *)
Definition primary_succeeds (p : ModelProvider) (req : ModelRequest)
    (h : list event) : bool :=
  IsAvailable p h &&
  is_ok (GenerateText p (h ++ [EvIsAvailable (req_Provider req) true]) req).

(** What one walk over a candidate list looks like: generation only
    after a positive availability check, derived requests for a
    subsequence of the chain in chain order, and the first success
    ends the walk. *)
Definition walk_of (req : ModelRequest) (chain : list string)
    (out : result ModelResponse RouterError) (new : list event) : Prop :=
  guarded new = true ∧
  (∃ tried, sublist tried chain ∧
     map fst (generations new) =
     map (fun c => (req_Provider req, withModelName req c)) tried) ∧
  match out with
  | Ok resp =>
      ∃ before g, generations new = before ++ [g] ∧ snd g = Ok resp ∧
                  Forall failed_generation before
  | Err e => e = AllFallbacksFailed ∧ Forall failed_generation (generations new)
  end.

(** The number of availability checks in a trace: one per candidate
    looked at. *)
Fixpoint checks (tr : list event) : nat :=
  match tr with
  | [] => 0
  | EvIsAvailable _ _ :: t => S (checks t)
  | EvGenerateText _ _ _ :: t => checks t
  end.




(** *** Example providers and routers *)

Definition sample_response (id : Provider) (req : ModelRequest) : ModelResponse :=
  {| resp_Text := "Sample response";
     resp_Provider := id;
     resp_ModelName := req_ModelName req;
     resp_TokensUsed := 0;
     resp_Latency := 0;
     resp_Metadata := ∅ |}.

(** A provider that is never available but would answer every
    request. *)
Definition provider_down : ModelProvider :=
  {| GenerateText := fun _ req => Ok (sample_response "openai" req);
     IsAvailable := fun _ => false |}.

(** A provider that is available and answers every model but ["m1"]. *)
Definition provider_no_m1 : ModelProvider :=
  {| GenerateText := fun _ req =>
       if String.eqb (req_ModelName req) "m1"
       then Err "model overloaded"
       else Ok (sample_response "openai" req);
     IsAvailable := fun _ => true |}.

(** A provider that is available and fails every request. *)
Definition provider_failing : ModelProvider :=
  {| GenerateText := fun _ _ => Err "upstream error";
     IsAvailable := fun _ => true |}.

Definition request_m1 : ModelRequest :=
  {| req_Prompt := "Tell me a joke";
     req_MaxTokens := 100;
     req_Temperature := 7 # 10;
     req_Provider := "openai";
     req_ModelName := "m1";
     req_Metadata := ∅ |}.

Definition router_with (p : ModelProvider) : ModelRouter :=
  SetFallbacks (RegisterProvider NewModelRouter "openai" p) "m1" ["m2"; "m3"].


(** *** The example provider: [OpenAIProvider] *)

Definition OpenAI : Provider := "openai".
Definition Anthropic : Provider := "anthropic".
Definition Cohere : Provider := "cohere".

Record OpenAIProvider := mkOpenAIProvider {
  apiKey : string;
  availabile : bool;
  models : gmap string bool
}.

Definition NewOpenAIProvider (apiKey : string) : OpenAIProvider :=
  {| apiKey := apiKey;
     availabile := true;
     models := {[ "gpt-4" := true; "gpt-3.5-turbo" := true ]} |}.

(** [func (p *OpenAIProvider) GenerateText]: the fields of the response
    the source does not set keep their zero values. *)
Definition OpenAIProvider_GenerateText (p : OpenAIProvider) (req : ModelRequest)
    : result ModelResponse ProviderError :=
  Ok {| resp_Text := "Sample response";
        resp_Provider := OpenAI;
        resp_ModelName := req_ModelName req;
        resp_TokensUsed := 0;
        resp_Latency := 0;
        resp_Metadata := ∅ |}.

Definition OpenAIProvider_IsAvailable (p : OpenAIProvider) : bool :=
  availabile p.

(** An [*OpenAIProvider] used as a [ModelProvider]: its methods do not
    depend on earlier calls. *)
Definition asModelProvider (p : OpenAIProvider) : ModelProvider :=
  {| GenerateText := fun _ req => OpenAIProvider_GenerateText p req;
     IsAvailable := fun _ => OpenAIProvider_IsAvailable p |}.

(** How a call ends, read on the events [new] it added. *)
Definition ends_as (req : ModelRequest)
    (out : result ModelResponse RouterError) (new : list event) : Prop :=
  match out with
  | Ok resp =>
      ∃ pre rq, new = pre ++ [EvGenerateText (req_Provider req) rq (Ok resp)] ∧
                Forall failed_generation (generations pre)
  | Err _ => Forall failed_generation (generations new)
  end.

Definition request_claude : ModelRequest :=
  {| req_Prompt := "Tell me a joke";
     req_MaxTokens := 100;
     req_Temperature := 7 # 10;
     req_Provider := Anthropic;
     req_ModelName := "claude-3";
     req_Metadata := ∅ |}.

(** The chain [tryFallbacks] walks for a request: empty when none is
    configured. *)
Definition chain_of (r : ModelRouter) (req : ModelRequest) : list string :=
  default [] (fallbacks r !! req_ModelName req).

End Router.


(** ** The proxy pipeline ([LLMProxy]) *)

Module Proxy.

Record RetryConfig := mkRetryConfig {
  MaxRetries : Z;
  BackoffBase : Z
}.

Record ProxyConfig := mkProxyConfig {
  APIKey : string;
  CacheEnabled : bool;
  cfg_RetryConfig : RetryConfig;
  RateLimit : Z;
  CostLimit : Q;
  CustomHeaders : gmap string (list string);
  FilterFunction : option (string -> string)
}.

Record ProxyMetrics := mkProxyMetrics {
  TotalRequests : Z;
  CacheHits : Z;
  Latency : Z;
  TokensUsed : Z;
  EstimatedCost : Q
}.

(** [json.RawMessage] is a byte string; instants ([time.Time]) are
    nanoseconds on an unbounded axis. *)
Record CacheEntry := mkCacheEntry {
  ce_Response : string;
  ce_Expiration : Z;
  ce_TokensUsed : Z;
  ce_Cost : Q
}.

(** [RequestCache.entries] is a [sync.Map] used as
    [map[string]CacheEntry]. *)
Record LLMProxy := mkLLMProxy {
  config : ProxyConfig;
  metrics : ProxyMetrics;
  cache : gmap string CacheEntry
}.

Definition NewLLMProxy (config : ProxyConfig) : LLMProxy :=
  {| config := config;
     cache := ∅;
     metrics := {| TotalRequests := 0; CacheHits := 0; Latency := 0;
                   TokensUsed := 0; EstimatedCost := 0 |} |}.

(** A value of [map[string]interface{}]. *)
Inductive MetaValue :=
| MetaString (s : string)
| MetaNumber (q : Q)
| MetaBool (b : bool)
| MetaNull.

Record Request := mkRequest {
  Prompt : string;
  Model : string;
  Temperature : Q;
  MaxTokens : Z;
  Metadata : gmap string MetaValue;
  CacheKey : string;
  RequestID : string;
  UserID : string
}.

Record ProxyResponse := mkProxyResponse {
  pr_Text : string;
  pr_TokensUsed : Z;
  pr_Cost : Q;
  pr_CacheHit : bool;
  pr_Latency : Z;
  pr_Model : string;
  pr_Metadata : gmap string MetaValue
}.

(** [ctx.Err()] once the context is done. *)
Inductive CtxErr := Canceled | DeadlineExceeded.

(** An error returned by [makeRequest] is an opaque message. *)
Definition UpstreamError := string.

Inductive ProxyError :=
(** [fmt.Errorf("daily cost limit exceeded: %.2f", CostLimit)] *)
| CostLimitExceeded (limit : Q)
(** [fmt.Errorf("max retries exceeded: %w", lastErr)]; [lastErr] is
    nil when no attempt was made. *)
| MaxRetriesExceeded (lastErr : option UpstreamError)
(** [ctx.Err()] returned from the backoff wait. *)
| ContextDone (e : CtxErr).

(** One entry per external call. [EvMakeRequest] is annotated with the
    loop index of the attempt; [EvSelect] records the backoff given to
    [time.After] and which case of the [select] ran ([Some e]: the
    [ctx.Done()] case, with [e = ctx.Err()]). *)
Inductive event :=
| EvNow (t : Z)
| EvMakeRequest (attempt : Z) (req : Request)
                (answer : result ProxyResponse UpstreamError)
| EvSelect (backoff : Z) (done : option CtxErr).

(** What the proxy file leaves to its surroundings: the method
    [p.makeRequest(ctx, req)] (called, never defined), which is given
    its receiver [p]; the outcome of the [select] in the retry loop; the
    clock; float64's addition of two costs; and two settings of the
    cache the source does not fix (the time-to-live of a stored entry
    and the bytes stored for a response). *)
Record Env := mkEnv {
  makeRequest : list event -> LLMProxy -> Request
                -> result ProxyResponse UpstreamError;
  ctxDone : list event -> Z -> option CtxErr;
  timeNow : list event -> Z;
  addCost : Q -> Q -> Q;
  cacheTTL : Z;
  encodePayload : ProxyResponse -> string
}.

(** *** A state monad over the proxy and the history *)

Definition St : Type := LLMProxy * list event.
Definition M (A : Type) : Type := St -> A * St.

#[global] Instance proxy_ret : MRet M := fun A a s => (a, s).
#[global] Instance proxy_bind : MBind M :=
  fun A B k c s => let '(a, s') := c s in k a s'.

Definition getProxy : M LLMProxy := fun s => (fst s, s).
Definition getHistory : M (list event) := fun s => (snd s, s).
Definition emit (e : event) : M unit := fun s => (tt, (fst s, snd s ++ [e])).
Definition setMetrics (m : ProxyMetrics) : M unit :=
  fun s => (tt, ({| config := config (fst s); metrics := m;
                    cache := cache (fst s) |}, snd s)).
Definition setCache (c : gmap string CacheEntry) : M unit :=
  fun s => (tt, ({| config := config (fst s); metrics := metrics (fst s);
                    cache := c |}, snd s)).

(** [time.Now()] *)
Definition now (E : Env) : M Z :=
  h ← getHistory;
  let t := timeNow E h in
  emit (EvNow t);;
  mret t.

(** [Time.Sub] saturates at the bounds of [time.Duration]. *)
Definition sat64 (x : Z) : Z := Z.max (- 2 ^ 63) (Z.min x (2 ^ 63 - 1)).

(** [time.Since(start)] *)
Definition since (E : Env) (start : Z) : M Z :=
  t ← now E;
  mret (sat64 (t - start)).

(** *** [checkRateLimits] and [recordMetrics] *)

Definition checkRateLimits : M (option ProxyError) :=
  p ← getProxy;
  if Qle_bool (CostLimit (config p)) (EstimatedCost (metrics p))
  then mret (Some (CostLimitExceeded (CostLimit (config p))))
  else mret None.

(** The update [recordMetrics] applies to [p.metrics]; the last line is
    the float64 [p.metrics.EstimatedCost += cost]. *)
Definition recorded (E : Env) (m : ProxyMetrics) (latency tokens : Z)
    (cost : Q) (cacheHit : bool) : ProxyMetrics :=
  {| TotalRequests := add64 (TotalRequests m) 1;
     CacheHits := if cacheHit then add64 (CacheHits m) 1 else CacheHits m;
     Latency := add64 (Latency m) latency;
     TokensUsed := add64 (TokensUsed m) tokens;
     EstimatedCost := addCost E (EstimatedCost m) cost |}.

Definition recordMetrics (E : Env) (latency tokens : Z) (cost : Q)
    (cacheHit : bool) : M unit :=
  p ← getProxy;
  setMetrics (recorded E (metrics p) latency tokens cost cacheHit).

(** *** [makeRequestWithRetries] *)

(** [backoff := BackoffBase * time.Duration(1<<attempt)] *)
Definition backoffFor (rc : RetryConfig) (attempt : Z) : Z :=
  mul64 (BackoffBase rc) (shl64 1 attempt).

(** The [for attempt := 0; attempt < MaxRetries; attempt++] loop, from
    the iteration with index [attempt] on; [left] is the number of
    iterations still to run, [MaxRetries - attempt]. *)
Fixpoint retryLoop (E : Env) (rc : RetryConfig) (req : Request)
    (left : nat) (attempt : Z) (lastErr : option UpstreamError)
    : M (result ProxyResponse ProxyError) :=
  match left with
  | O => mret (Err (MaxRetriesExceeded lastErr))
  | S left' =>
      p ← getProxy;
      h ← getHistory;
      let answer := makeRequest E h p req in
      emit (EvMakeRequest attempt req answer);;
      match answer with
      | Ok response => mret (Ok response)
      | Err err =>
          let backoff := backoffFor rc attempt in
          h' ← getHistory;
          let done := ctxDone E h' backoff in
          emit (EvSelect backoff done);;
          match done with
          | Some e => mret (Err (ContextDone e))
          | None => retryLoop E rc req left' (attempt + 1) (Some err)
          end
      end
  end.

Definition makeRequestWithRetries (E : Env) (req : Request)
    : M (result ProxyResponse ProxyError) :=
  p ← getProxy;
  let rc := cfg_RetryConfig (config p) in
  retryLoop E rc req (Z.to_nat (MaxRetries rc)) 0 None.

(** *** The cache helpers *)

(** Modelled from the spec: [checkCache] is called by [ProcessRequest]
    and defined nowhere in the repository. It is the spec's
    [get(key)]: found only if the key is non-empty, an entry exists,
    and its expiration is in the future. *)
Definition checkCache (E : Env) (key : string) : M (option CacheEntry) :=
  p ← getProxy;
  if String.eqb key "" then mret None
  else match cache p !! key with
       | None => mret None
       | Some entry =>
           t ← now E;
           if t <? ce_Expiration entry then mret (Some entry) else mret None
       end.

(** Modelled from the spec: [cacheResponse] is called by
    [ProcessRequest] and defined nowhere in the repository. By the
    spec's data model the absence of a cache key means the request is
    never cacheable, so an empty key stores nothing. For any other key
    it is the spec's [put(key, response, ttl)]: it unconditionally
    overwrites the entry of the key, with expiration = now + ttl. *)
Definition cacheResponse (E : Env) (key : string) (response : ProxyResponse)
    : M unit :=
  if String.eqb key "" then mret tt
  else
    p ← getProxy;
    t ← now E;
    setCache (<[key := {| ce_Response := encodePayload E response;
                          ce_Expiration := t + cacheTTL E;
                          ce_TokensUsed := pr_TokensUsed response;
                          ce_Cost := pr_Cost response |}]> (cache p)).

(** *** [ProcessRequest] *)

Definition withPrompt (req : Request) (prompt : string) : Request :=
  {| Prompt := prompt; Model := Model req; Temperature := Temperature req;
     MaxTokens := MaxTokens req; Metadata := Metadata req;
     CacheKey := CacheKey req; RequestID := RequestID req;
     UserID := UserID req |}.

(** [if p.config.FilterFunction != nil] *)
Definition filtered (cfg : ProxyConfig) (req : Request) : Request :=
  match FilterFunction cfg with
  | Some f => withPrompt req (f (Prompt req))
  | None => req
  end.

Definition ProcessRequest (E : Env) (req : Request)
    : M (result ProxyResponse ProxyError) :=
  start ← now E;
  denied ← checkRateLimits;
  match denied with
  | Some err => mret (Err err)
  | None =>
      p ← getProxy;
      let req := filtered (config p) req in
      lookup ← (if CacheEnabled (config p)
                then checkCache E (CacheKey req) else mret None);
      match lookup with
      | Some cached =>
          recordMetrics E 0 (ce_TokensUsed cached) (ce_Cost cached) true;;
          latency ← since E start;
          mret (Ok {| pr_Text := ce_Response cached;
                      pr_CacheHit := true;
                      pr_TokensUsed := ce_TokensUsed cached;
                      pr_Cost := ce_Cost cached;
                      pr_Latency := latency;
                      pr_Model := "";
                      pr_Metadata := ∅ |})
      | None =>
          answer ← makeRequestWithRetries E req;
          match answer with
          | Err err => mret (Err err)
          | Ok response =>
              latency ← since E start;
              recordMetrics E latency (pr_TokensUsed response)
                            (pr_Cost response) false;;
              (if CacheEnabled (config p)
               then cacheResponse E (CacheKey req) response else mret tt);;
              mret (Ok response)
          end
      end
  end.

(** A sequence of [ProcessRequest] calls on the same proxy; the
    answers come back in call order. *)
Fixpoint processAll (E : Env) (reqs : list Request)
    : M (list (result ProxyResponse ProxyError)) :=
  match reqs with
  | [] => mret []
  | req :: rest =>
      a ← ProcessRequest E req;
      more ← processAll E rest;
      mret (a :: more)
  end.

(** *** Reading a trace *)

(** The attempt indices of the [makeRequest] calls, oldest first. *)
Fixpoint attempts (tr : list event) : list Z :=
  match tr with
  | [] => []
  | EvMakeRequest i _ _ :: t => i :: attempts t
  | _ :: t => attempts t
  end.

(** The backoff delays handed to the [select], oldest first. *)
Fixpoint waits (tr : list event) : list Z :=
  match tr with
  | [] => []
  | EvSelect d _ :: t => d :: waits t
  | _ :: t => waits t
  end.




(** [errs] failed attempts in a row from index [attempt] on, each
    followed by a backoff wait that ran to its end. *)
Fixpoint failedRounds (rc : RetryConfig) (req : Request) (attempt : Z)
    (errs : list UpstreamError) : list event :=
  match errs with
  | [] => []
  | err :: rest =>
      EvMakeRequest attempt req (Err err)
      :: EvSelect (backoffFor rc attempt) None
      :: failedRounds rc req (attempt + 1) rest
  end.

(** The cause wrapped by "max retries exceeded": the last failure seen,
    or what [lastErr] held before the loop. *)
Definition lastFailure (lastErr : option UpstreamError)
    (errs : list UpstreamError) : option UpstreamError :=
  match last errs with
  | Some err => Some err
  | None => lastErr
  end.

(** How a run of the retry loop with [left] iterations to go ends after
    [errs] failed rounds: with a successful attempt, with the context
    done during the wait that follows one more failed attempt, or with
    all iterations used up. [tail] holds the events after the failed
    rounds and [out] is the value returned. *)
Definition retry_end (rc : RetryConfig) (req : Request) (left : nat)
    (attempt : Z) (lastErr : option UpstreamError)
    (errs : list UpstreamError) (tail : list event)
    (out : result ProxyResponse ProxyError) : Prop :=
  let next := attempt + Z.of_nat (length errs) in
  (∃ response,
     (length errs < left)%nat ∧
     tail = [EvMakeRequest next req (Ok response)] ∧
     out = Ok response)
  ∨ (∃ err e,
     (length errs < left)%nat ∧
     tail = [EvMakeRequest next req (Err err);
             EvSelect (backoffFor rc next) (Some e)] ∧
     out = Err (ContextDone e))
  ∨ (length errs = left ∧ tail = [] ∧
     out = Err (MaxRetriesExceeded (lastFailure lastErr errs))).

(** *** Example configurations and surroundings *)

(** The configuration of the source's [Example]: caching on, three
    attempts, a base delay of one second, a ceiling of 50. *)
Definition example_config : ProxyConfig :=
  {| APIKey := "your-api-key";
     CacheEnabled := true;
     cfg_RetryConfig := {| MaxRetries := 3; BackoffBase := 1000000000 |};
     RateLimit := 100;
     CostLimit := 50;
     CustomHeaders := ∅;
     FilterFunction := Some (fun prompt => prompt) |}.

Definition example_request (key : string) : Request :=
  {| Prompt := "Explain quantum computing";
     Model := "gpt-4";
     Temperature := 0;
     MaxTokens := 100;
     Metadata := {[ "purpose" := MetaString "education";
                    "source" := MetaString "web-app" ]};
     CacheKey := key;
     RequestID := "req-123";
     UserID := "user-456" |}.

Definition example_response (cost : Q) : ProxyResponse :=
  {| pr_Text := "Qubits";
     pr_TokensUsed := 12;
     pr_Cost := cost;
     pr_CacheHit := false;
     pr_Latency := 0;
     pr_Model := "gpt-4";
     pr_Metadata := ∅ |}.

(** Surroundings built from one fixed answer of [makeRequest] and one
    fixed outcome of the [select]; the clock advances by one second per
    external call; costs add up exactly, as float64 adds the small
    dyadic costs of the examples; entries live for a minute; the payload
    is the text. *)
Definition example_env (answer : result ProxyResponse UpstreamError)
    (done : option CtxErr) : Env :=
  {| makeRequest := fun _ _ _ => answer;
     ctxDone := fun _ _ => done;
     timeNow := fun h => 1000000000 * Z.of_nat (length h);
     addCost := Qplus;
     cacheTTL := 60000000000;
     encodePayload := pr_Text |}.

Definition example_proxy : LLMProxy := NewLLMProxy example_config.

(** The example configuration with other retry settings. *)
Definition config_with_retries (maxRetries backoffBase : Z) : ProxyConfig :=
  {| APIKey := APIKey example_config;
     CacheEnabled := CacheEnabled example_config;
     cfg_RetryConfig := {| MaxRetries := maxRetries; BackoffBase := backoffBase |};
     RateLimit := RateLimit example_config;
     CostLimit := CostLimit example_config;
     CustomHeaders := CustomHeaders example_config;
     FilterFunction := FilterFunction example_config |}.

(** A proxy whose recorded cost has reached the ceiling and whose cache
    holds an entry for ["k"] that never expires in the examples. *)
Definition example_entry : CacheEntry :=
  {| ce_Response := "Qubits"; ce_Expiration := 2 ^ 62;
     ce_TokensUsed := 12; ce_Cost := 1 # 2 |}.

Definition proxy_with_cost (cost : Q) : LLMProxy :=
  {| config := example_config;
     metrics := {| TotalRequests := 100; CacheHits := 0; Latency := 0;
                   TokensUsed := 1200; EstimatedCost := cost |};
     cache := {[ "k" := example_entry ]} |}.


(** Surroundings in which every attempt fails and the context is
    cancelled during the second wait, the one of two seconds. *)
Definition env_cancelled_later : Env :=
  {| makeRequest := fun _ _ _ => Err "boom";
     ctxDone := fun _ d => if d =? 2000000000 then Some Canceled else None;
     timeNow := fun h => 1000000000 * Z.of_nat (length h);
     addCost := Qplus;
     cacheTTL := 60000000000;
     encodePayload := pr_Text |}.

(** *** The place of an event in a run of the retry loop *)

(** What holds of an attempt recorded after the events [pre] of a call
    that started with history [h] and returned [out]: the request sent
    is the request given, the answer is the transport's at that point,
    a success ends the call, and a failure is followed by the [select]
    on the context and that attempt's backoff. *)
Definition after_attempt (E : Env) (rc : RetryConfig) (req : Request)
    (p : LLMProxy) (h pre : list event) (i : Z) (sent : Request)
    (ans : result ProxyResponse UpstreamError) (post : list event)
    (out : result ProxyResponse ProxyError) : Prop :=
  sent = req ∧
  ans = makeRequest E (h ++ pre) p req ∧
  match ans with
  | Ok response => post = [] ∧ out = Ok response
  | Err err =>
      ∃ rest,
        post = EvSelect (backoffFor rc i)
                 (ctxDone E (h ++ pre ++ [EvMakeRequest i req (Err err)])
                    (backoffFor rc i)) :: rest
  end.

(** What holds of a [select] recorded after the events [pre]: its
    outcome is the state of the context during that wait; it directly
    follows a failed attempt and waits that attempt's backoff; taken by
    [ctx.Done()] it is the last event and the call returns [ctx.Err()];
    taken by the timer it is followed by the next attempt, or, the
    attempts being used up, by the return of the last failure. *)
Definition at_select (E : Env) (rc : RetryConfig) (req : Request)
    (p : LLMProxy) (h pre : list event) (backoff : Z) (done : option CtxErr)
    (post : list event) (out : result ProxyResponse ProxyError) : Prop :=
  done = ctxDone E (h ++ pre) backoff ∧
  ∃ pre' i err,
    pre = pre' ++ [EvMakeRequest i req (Err err)] ∧
    backoff = backoffFor rc i ∧
    match done with
    | Some e => post = [] ∧ out = Err (ContextDone e)
    | None =>
        match post with
        | [] => out = Err (MaxRetriesExceeded (Some err))
        | next :: _ =>
            next = EvMakeRequest (i + 1) req
                     (makeRequest E (h ++ pre ++ [EvSelect backoff None]) p req)
        end
    end.

(** *** Further readings of answers and traces *)

(** The token counts of the successful answers, in call order. *)
Fixpoint tokens (answers : list (result ProxyResponse ProxyError)) : list Z :=
  match answers with
  | [] => []
  | Ok response :: t => pr_TokensUsed response :: tokens t
  | Err _ :: t => tokens t
  end.

(** The requests handed to [makeRequest], oldest first. *)
Fixpoint requests_sent (tr : list event) : list Request :=
  match tr with
  | [] => []
  | EvMakeRequest _ req _ :: t => req :: requests_sent t
  | _ :: t => requests_sent t
  end.

(** The proxy [p] with other values in the three settings that no
    function of the file reads: [APIKey], [RateLimit] and
    [CustomHeaders]. *)
Definition withUnreadSettings (p : LLMProxy) (key : string) (rate : Z)
    (headers : gmap string (list string)) : LLMProxy :=
  {| config := {| APIKey := key;
                  CacheEnabled := CacheEnabled (config p);
                  cfg_RetryConfig := cfg_RetryConfig (config p);
                  RateLimit := rate;
                  CostLimit := CostLimit (config p);
                  CustomHeaders := headers;
                  FilterFunction := FilterFunction (config p) |};
     metrics := metrics p;
     cache := cache p |}.

(** The example configuration with caching switched off and a filter
    that masks the whole prompt. *)
Definition config_uncached : ProxyConfig :=
  {| APIKey := APIKey example_config;
     CacheEnabled := false;
     cfg_RetryConfig := cfg_RetryConfig example_config;
     RateLimit := RateLimit example_config;
     CostLimit := CostLimit example_config;
     CustomHeaders := CustomHeaders example_config;
     FilterFunction := Some (fun _ => "[redacted]") |}.

(** The zero value of [ProxyConfig]. *)
Definition zero_config : ProxyConfig :=
  {| APIKey := "";
     CacheEnabled := false;
     cfg_RetryConfig := {| MaxRetries := 0; BackoffBase := 0 |};
     RateLimit := 0;
     CostLimit := 0;
     CustomHeaders := ∅;
     FilterFunction := None |}.

End Proxy.


(** ** The HTTP client example ([makeAPIRequest]) *)

Module Client.

Record Choice := mkChoice {
  ch_Text : string;
  ch_Index : Z
}.

Record Usage := mkUsage {
  PromptTokens : Z;
  CompletionTokens : Z;
  TotalTokens : Z
}.

(** [Created] is an instant, in nanoseconds. *)
Record LLMResponse := mkLLMResponse {
  llm_ID : string;
  llm_Created : Z;
  llm_Choices : list Choice;
  llm_Usage : Usage
}.

(** [LLMResponse{}] *)
Definition zeroLLMResponse : LLMResponse :=
  {| llm_ID := ""; llm_Created := 0; llm_Choices := [];
     llm_Usage := {| PromptTokens := 0; CompletionTokens := 0;
                     TotalTokens := 0 |} |}.

(** What the function looks at in an [*http.Response]. *)
Record HttpResponse := mkHttpResponse {
  StatusCode : Z;
  Body : string
}.

Definition StatusOK : Z := 200.

(** [time.Second], in nanoseconds. *)
Definition Second : Z := 1000000000.

(** One entry per external call, annotated with the loop index of the
    attempt it belongs to: creating the request, [client.Do], decoding
    the body, [time.Sleep], and the deferred [resp.Body.Close()]. *)
Inductive event :=
| EvNewRequest (attempt : Z) (ok : bool)
| EvDo (attempt : Z) (answer : result HttpResponse string)
| EvDecode (attempt : Z) (answer : option LLMResponse)
| EvSleep (d : Z)
| EvClose (attempt : Z).

(** The surroundings: whether [http.NewRequestWithContext] succeeds,
    what [client.Do] returns, and what decoding the body gives
    ([None]: an error). *)
Record Env := mkEnv {
  newRequest : list event -> bool;
  clientDo : list event -> result HttpResponse string;
  decodeBody : list event -> HttpResponse -> option LLMResponse
}.

(** [time.Duration(attempt*attempt) * time.Second] *)
Definition sleepFor (attempt : Z) : Z := mul64 (mul64 attempt attempt) Second.

(** The deferred calls run when the function returns, last deferred
    first; [deferred] is the stack, most recent on top. *)
Definition runDeferred (deferred : list Z) (h : list event) : list event :=
  h ++ map EvClose deferred.

(** The [for attempt := 0; attempt < maxRetries; attempt++] loop from
    the iteration with index [attempt] on, with [left] iterations to
    go, and the return that follows it. *)
Fixpoint attemptLoop (E : Env) (left : nat) (attempt : Z) (deferred : list Z)
    (h : list event) : result LLMResponse string * list event :=
  match left with
  | O => (Err "failed after 3 retries", runDeferred deferred h)
  | S left' =>
      let created := newRequest E h in
      let h1 := h ++ [EvNewRequest attempt created] in
      if created then
        let answer := clientDo E h1 in
        let h2 := h1 ++ [EvDo attempt answer] in
        match answer with
        | Err _ =>
            attemptLoop E left' (attempt + 1) deferred
              (h2 ++ [EvSleep (sleepFor attempt)])
        | Ok resp =>
            let deferred' := attempt :: deferred in
            if StatusCode resp =? StatusOK then
              let decoded := decodeBody E h2 resp in
              let h3 := h2 ++ [EvDecode attempt decoded] in
              match decoded with
              | Some llmResponse => (Ok llmResponse, runDeferred deferred' h3)
              | None => attemptLoop E left' (attempt + 1) deferred' h3
              end
            else attemptLoop E left' (attempt + 1) deferred' h2
        end
      else attemptLoop E left' (attempt + 1) deferred h1
  end.

(** [maxRetries := 3]; the prompt is a parameter the body never uses. *)
Definition makeAPIRequest (E : Env) (prompt : string) (h : list event)
    : result LLMResponse string * list event :=
  attemptLoop E 3 0 [] h.

(** *** Reading a trace *)

(** The attempts whose [client.Do] returned a response, oldest first. *)
Fixpoint responded (tr : list event) : list Z :=
  match tr with
  | [] => []
  | EvDo i (Ok _) :: t => i :: responded t
  | _ :: t => responded t
  end.

(** The attempts whose [client.Do] returned an error, oldest first. *)
Fixpoint failed (tr : list event) : list Z :=
  match tr with
  | [] => []
  | EvDo i (Err _) :: t => i :: failed t
  | _ :: t => failed t
  end.

(** The attempts for which [client.Do] was called, oldest first. *)
Fixpoint sent (tr : list event) : list Z :=
  match tr with
  | [] => []
  | EvDo i _ :: t => i :: sent t
  | _ :: t => sent t
  end.

(** The durations slept, oldest first. *)
Fixpoint sleeps (tr : list event) : list Z :=
  match tr with
  | [] => []
  | EvSleep d :: t => d :: sleeps t
  | _ :: t => sleeps t
  end.

(** The bodies closed, oldest first. *)
Fixpoint closes (tr : list event) : list Z :=
  match tr with
  | [] => []
  | EvClose i :: t => i :: closes t
  | _ :: t => closes t
  end.

(** How a call ends, read on the events before the deferred calls. *)
Definition ends_with (out : result LLMResponse string) (body : list event)
    : Prop :=
  match out with
  | Ok llmResponse =>
      ∃ pre i resp,
        body = pre ++ [EvDo i (Ok resp); EvDecode i (Some llmResponse)] ∧
        StatusCode resp = StatusOK
  | Err msg => msg = "failed after 3 retries"
  end.

(** *** Example surroundings *)

Definition example_llm : LLMResponse :=
  {| llm_ID := "cmpl-1"; llm_Created := 0;
     llm_Choices := [{| ch_Text := "Paris"; ch_Index := 0 |}];
     llm_Usage := {| PromptTokens := 7; CompletionTokens := 1;
                     TotalTokens := 8 |} |}.

(** Every [client.Do] fails, as with a cancelled context. *)
Definition env_unreachable : Env :=
  {| newRequest := fun _ => true;
     clientDo := fun _ => Err "context canceled";
     decodeBody := fun _ _ => None |}.

(** The server answers 503 twice and then 200 with a body that
    decodes. *)
Definition env_third_time : Env :=
  {| newRequest := fun _ => true;
     clientDo := fun h =>
       if (length h <? 4)%nat
       then Ok {| StatusCode := 503; Body := "busy" |}
       else Ok {| StatusCode := 200; Body := "{}" |};
     decodeBody := fun _ _ => Some example_llm |}.

End Client.

(** * Properties of the router *)

Section RouterProperties.
Import Router.

Lemma generations_app (a b : list event) :
  generations (a ++ b) = generations a ++ generations b.
Proof.
  induction a as [|[id ans|id rq ans] a IH]; simpl; [done| |]; by rewrite IH.
Qed.

Lemma guarded_unavailable id (t : list event) :
  guarded (EvIsAvailable id false :: t) = guarded t.
Proof. reflexivity. Qed.

Lemma guarded_generation id rq ans (t : list event) :
  guarded (EvIsAvailable id true :: EvGenerateText id rq ans :: t) = guarded t.
Proof. simpl. by rewrite bool_decide_eq_true_2. Qed.

Lemma tryCandidates_walk r req chain : ∀ h,
  ∃ new, snd (tryCandidates r req chain h) = h ++ new ∧
         walk_of req chain (fst (tryCandidates r req chain h)) new.
Proof.
  induction chain as [|c chain IH]; intros h; simpl.
  - exists []. rewrite app_nil_r. repeat split; simpl; try done.
    exists []. split; [constructor | done].
  - destruct (providers r !! req_Provider req) as [p|] eqn:Hp.
    + unfold callIsAvailable, callGenerateText.
      destruct (IsAvailable p h) eqn:Hav.
      * set (h1 := h ++ [EvIsAvailable (req_Provider req) true]).
        destruct (GenerateText p h1 (withModelName req c)) as [resp|err] eqn:Hans;
          simpl.
        -- exists [EvIsAvailable (req_Provider req) true;
                   EvGenerateText (req_Provider req) (withModelName req c) (Ok resp)].
           split; [unfold h1; by rewrite <- app_assoc|].
           split; [simpl; by rewrite bool_decide_eq_true_2|].
           split.
           ++ exists [c]. split; [|done].
              apply sublist_skip, sublist_nil_l.
           ++ exists [], (req_Provider req, withModelName req c, Ok resp).
              by repeat split.
        -- destruct (IH (h1 ++ [EvGenerateText (req_Provider req)
                                  (withModelName req c) (Err err)]))
             as (new & Hsnd & Hg & (tried & Hsub & Hmap) & Hout).
           exists (EvIsAvailable (req_Provider req) true ::
                   EvGenerateText (req_Provider req) (withModelName req c) (Err err)
                   :: new).
           split; [rewrite Hsnd; unfold h1; by rewrite <- !app_assoc|].
           split; [by rewrite guarded_generation|].
           split.
           ++ exists (c :: tried). split; [by apply sublist_skip|].
              simpl. by rewrite Hmap.
           ++ destruct (fst (tryCandidates r req chain _)) as [resp|e].
              ** destruct Hout as (before & g & Hgen & Hok & Hall).
                 exists ((req_Provider req, withModelName req c, Err err) :: before), g.
                 simpl. rewrite Hgen. split; [done|]. split; [done|].
                 by constructor.
              ** destruct Hout as [-> Hall]. split; [done|].
                 simpl. by constructor.
      * destruct (IH (h ++ [EvIsAvailable (req_Provider req) false]))
          as (new & Hsnd & Hg & (tried & Hsub & Hmap) & Hout).
        exists (EvIsAvailable (req_Provider req) false :: new).
        split; [rewrite Hsnd; by rewrite <- app_assoc|].
        split; [by rewrite guarded_unavailable|].
        split; [exists tried; split; [by apply sublist_cons|done]|].
        done.
    + destruct (IH h) as (new & Hsnd & Hg & (tried & Hsub & Hmap) & Hout).
      exists new. split; [done|]. split; [done|].
      split; [exists tried; split; [by apply sublist_cons|done]|done].
Qed.



Lemma tryFallbacks_walk r req chain h :
  fallbacks r !! req_ModelName req = Some chain →
  ∃ new, snd (tryFallbacks r req h) = h ++ new ∧
         walk_of req chain (fst (tryFallbacks r req h)) new.
Proof. intros Hfb. unfold tryFallbacks. rewrite Hfb. apply tryCandidates_walk. Qed.

(** Unfolding of [RouteRequest] on a registered provider, by the
    outcome of the primary attempt. *)
Lemma RouteRequest_primary r p req h :
  providers r !! req_Provider req = Some p →
  RouteRequest r req h =
  let h1 := h ++ [EvIsAvailable (req_Provider req) (IsAvailable p h)] in
  if IsAvailable p h then
    match GenerateText p h1 req with
    | Ok resp => (Ok resp, h1 ++ [EvGenerateText (req_Provider req) req (Ok resp)])
    | Err e => tryFallbacks r req
                 (h1 ++ [EvGenerateText (req_Provider req) req (Err e)])
    end
  else tryFallbacks r req h1.
Proof.
  intros Hp. unfold RouteRequest, callIsAvailable, callGenerateText.
  rewrite Hp. simpl. destruct (IsAvailable p h); [|done].
  by destruct (GenerateText p _ req).
Qed.

(** C2 (as stated) fails: with provider ["openai"] unavailable and the
    chain [["m2"; "m3"]] configured for ["m1"], a request for ["m1"]
    attempts no generation at all, although the provider would have
    answered ["m2"]; the candidates are tried on the same, unavailable,
    provider and are all skipped. *)
Lemma RouteRequest_unavailable_skips_fallbacks :
  providers (router_with provider_down) !! req_Provider request_m1
    = Some provider_down ∧
  (∀ h, IsAvailable provider_down h = false) ∧
  fallbacks (router_with provider_down) !! "m1" = Some ["m2"; "m3"] ∧
  (∀ h, is_ok (GenerateText provider_down h (withModelName request_m1 "m2")) = true) ∧
  attempted_models (snd (RouteRequest (router_with provider_down) request_m1 []))
    = [] ∧
  fst (RouteRequest (router_with provider_down) request_m1 [])
    = Err AllFallbacksFailed.
Proof. repeat split. Qed.

(** C2 (amended): for a registered provider [p] and the chain
    [[m2; m3]] configured for the requested model [m1]:
    when [p] reports unavailable throughout, [RouteRequest] attempts no
    generation at all (neither [m1] nor [m2] nor [m3]: the candidates
    are tried on the same provider) and fails with "all fallbacks
    failed"; when [p] is available and its generation fails for [m1],
    [m2] is attempted, then [m3] if [m2] failed, and the first success
    is returned, or "all fallbacks failed" if none succeeds. *)
Theorem RouteRequest_two_fallbacks r p req m1 m2 m3 h :
  providers r !! req_Provider req = Some p →
  req_ModelName req = m1 →
  fallbacks r !! m1 = Some [m2; m3] →
  ((∀ h', IsAvailable p h' = false) →
   RouteRequest r req h =
     (Err AllFallbacksFailed,
      h ++ replicate 3 (EvIsAvailable (req_Provider req) false)) ∧
   attempted_models (replicate 3 (EvIsAvailable (req_Provider req) false)) = [])
  ∧
  ((∀ h', IsAvailable p h' = true) →
   ∀ gen, (∀ h', GenerateText p h' = gen) →
   is_ok (gen req) = false →
   ∃ new,
     snd (RouteRequest r req h) = h ++ new ∧
     attempted_models new =
       m1 :: m2 :: (if is_ok (gen (withModelName req m2)) then [] else [m3]) ∧
     fst (RouteRequest r req h) =
       match gen (withModelName req m2) with
       | Ok resp => Ok resp
       | Err _ =>
           match gen (withModelName req m3) with
           | Ok resp => Ok resp
           | Err _ => Err AllFallbacksFailed
           end
       end).
Proof.
  intros Hp Hm Hfb. split.
  - intros Hdown. split; [|done].
    rewrite (RouteRequest_primary r p req h Hp). cbn zeta.
    rewrite Hdown. unfold tryFallbacks. rewrite Hm, Hfb. simpl.
    rewrite Hp. unfold callIsAvailable. rewrite !Hdown.
    by rewrite <- !app_assoc.
  - intros Hup gen Hgen Hfail.
    rewrite (RouteRequest_primary r p req h Hp). cbn zeta.
    rewrite Hup, Hgen.
    destruct (gen req) as [resp|e1] eqn:H1; [done|].
    unfold tryFallbacks. rewrite Hm, Hfb. simpl.
    rewrite Hp. unfold callIsAvailable, callGenerateText.
    rewrite !Hup, !Hgen.
    destruct (gen (withModelName req m2)) as [resp2|e2] eqn:H2; simpl.
    + eexists. split; [by rewrite <- !app_assoc|].
      split; [|done]. unfold attempted_models. simpl. by rewrite Hm.
    + rewrite ?Hup, ?Hgen.
      destruct (gen (withModelName req m3)) as [resp3|e3] eqn:H3; simpl.
      * eexists. split; [by rewrite <- !app_assoc|].
        split; [|done]. unfold attempted_models. simpl. by rewrite Hm.
      * eexists. split; [by rewrite <- !app_assoc|].
        split; [|done]. unfold attempted_models. simpl. by rewrite Hm.
Qed.

Lemma RouteRequest_two_fallbacks_witness :
  RouteRequest (router_with provider_down) request_m1 [] =
    (Err AllFallbacksFailed, replicate 3 (EvIsAvailable "openai" false)) ∧
  ∃ new,
    snd (RouteRequest (router_with provider_no_m1) request_m1 []) = new ∧
    attempted_models new = ["m1"; "m2"] ∧
    fst (RouteRequest (router_with provider_no_m1) request_m1 []) =
      Ok (sample_response "openai" (withModelName request_m1 "m2")).
Proof.
  split.
  - apply (proj1 (RouteRequest_two_fallbacks (router_with provider_down)
                    provider_down request_m1 "m1" "m2" "m3" []
                    eq_refl eq_refl eq_refl)).
    reflexivity.
  - destruct (proj2 (RouteRequest_two_fallbacks (router_with provider_no_m1)
                       provider_no_m1 request_m1 "m1" "m2" "m3" []
                       eq_refl eq_refl eq_refl)
                (fun _ => eq_refl) (GenerateText provider_no_m1 [])
                (fun _ => eq_refl) eq_refl)
      as (new & Hsnd & Hatt & Hfst).
    exists new. split; [exact Hsnd|]. split; [exact Hatt|exact Hfst].
Defined.

(** C6: the failures of [RouteRequest].
    (1) An unregistered provider id gives "provider not found", with no
        provider call, whatever the fallback table holds.
    (2) A registered provider whose primary attempt does not succeed
        (unavailable, or generation failed), with no chain configured
        for the requested model, gives "no fallbacks configured".
    (3) A registered provider with a chain configured, when no
        generation of the call succeeded (each was skipped or failed),
        gives "all fallbacks failed". *)
Theorem RouteRequest_failures r req h :
  (providers r !! req_Provider req = None →
   ∀ table,
     RouteRequest {| providers := providers r; fallbacks := table |} req h
     = (Err ProviderNotFound, h))
  ∧
  (∀ p, providers r !! req_Provider req = Some p →
        primary_succeeds p req h = false →
        fallbacks r !! req_ModelName req = None →
        fst (RouteRequest r req h) = Err NoFallbacksConfigured)
  ∧
  (∀ p chain new,
        providers r !! req_Provider req = Some p →
        fallbacks r !! req_ModelName req = Some chain →
        snd (RouteRequest r req h) = h ++ new →
        Forall failed_generation (generations new) →
        fst (RouteRequest r req h) = Err AllFallbacksFailed).
Proof.
  split; [|split].
  - intros Hnone table. unfold RouteRequest. simpl. by rewrite Hnone.
  - intros p Hp Hprim Hfb.
    rewrite (RouteRequest_primary r p req h Hp). cbn zeta.
    unfold primary_succeeds in Hprim. unfold tryFallbacks. rewrite Hfb.
    destruct (IsAvailable p h); [|done].
    simpl in Hprim. by destruct (GenerateText p _ req).
  - intros p chain new Hp Hfb.
    rewrite (RouteRequest_primary r p req h Hp). cbn zeta.
    destruct (IsAvailable p h).
    + destruct (GenerateText p _ req) as [resp|e] eqn:Hgen.
      * simpl. intros Heq. rewrite <- app_assoc in Heq.
        apply app_inv_head in Heq. subst new.
        simpl. by intros [Hbad _]%Forall_cons.
      * destruct (tryFallbacks_walk r req chain
                    ((h ++ [EvIsAvailable (req_Provider req) true]) ++
                     [EvGenerateText (req_Provider req) req (Err e)]) Hfb)
          as (new' & Hsnd & _ & _ & Hout).
        rewrite Hsnd. intros Heq. rewrite <- !app_assoc in Heq.
        apply app_inv_head in Heq. subst new.
        simpl. intros [_ Hall]%Forall_cons.
        destruct (fst (tryFallbacks r req _)) as [resp|e'].
        -- destruct Hout as (before & g & Hgens & Hok & _).
           rewrite Hgens in Hall.
           apply Forall_app in Hall as [_ [Hbad _]%Forall_cons].
           unfold failed_generation in Hbad. by rewrite Hok in Hbad.
        -- by destruct Hout as [-> _].
    + destruct (tryFallbacks_walk r req chain
                  (h ++ [EvIsAvailable (req_Provider req) false]) Hfb)
        as (new' & Hsnd & _ & _ & Hout).
      rewrite Hsnd. intros Heq. rewrite <- !app_assoc in Heq.
      apply app_inv_head in Heq. subst new.
      simpl. intros Hall.
      destruct (fst (tryFallbacks r req _)) as [resp|e'].
      * destruct Hout as (before & g & Hgens & Hok & _).
        rewrite Hgens in Hall.
        apply Forall_app in Hall as [_ [Hbad _]%Forall_cons].
        unfold failed_generation in Hbad. by rewrite Hok in Hbad.
      * by destruct Hout as [-> _].
Qed.

Lemma RouteRequest_failures_witness :
  RouteRequest NewModelRouter request_m1 [] = (Err ProviderNotFound, []) ∧
  fst (RouteRequest (RegisterProvider NewModelRouter "openai" provider_failing)
         request_m1 []) = Err NoFallbacksConfigured ∧
  fst (RouteRequest (router_with provider_failing) request_m1 [])
    = Err AllFallbacksFailed.
Proof.
  split; [|split].
  - apply (proj1 (RouteRequest_failures NewModelRouter request_m1 []) eq_refl ∅).
  - apply (proj1 (proj2 (RouteRequest_failures
             (RegisterProvider NewModelRouter "openai" provider_failing)
             request_m1 [])) provider_failing); reflexivity.
  - apply (proj2 (proj2 (RouteRequest_failures
             (router_with provider_failing) request_m1 []))
             provider_failing ["m2"; "m3"]
             (snd (RouteRequest (router_with provider_failing) request_m1 [])));
      [reflexivity | reflexivity | reflexivity |].
    vm_compute. repeat constructor.
Defined.


Lemma checks_app (a b : list event) : checks (a ++ b) = (checks a + checks b)%nat.
Proof.
  induction a as [|[id ans|id rq ans] a IH]; simpl; [done| |]; by rewrite IH.
Qed.




End RouterProperties.

(** * Properties of the proxy pipeline *)

Section ProxyProperties.
Import Proxy.

(** ** 64-bit arithmetic *)

Lemma wrap64_in_range x : in_int64 x → wrap64 x = x.
Proof.
  unfold in_int64, wrap64. intros Hx.
  rewrite Z.mod_small; lia.
Qed.

Lemma wrap64_congr x y k : x = y + k * 2 ^ 64 → wrap64 x = wrap64 y.
Proof.
  intros ->. unfold wrap64.
  replace (y + k * 2 ^ 64 + 2 ^ 63) with (y + 2 ^ 63 + k * 2 ^ 64) by lia.
  by rewrite Z_mod_plus_full.
Qed.

Lemma wrap64_unfold x : ∃ k, wrap64 x = x + k * 2 ^ 64.
Proof.
  exists (- ((x + 2 ^ 63) / 2 ^ 64)). unfold wrap64.
  rewrite Z.mod_eq by lia. lia.
Qed.

(** The backoff is the exact product reduced to 64 bits. *)
Lemma backoffFor_wrap rc i :
  0 <= i → backoffFor rc i = wrap64 (BackoffBase rc * 2 ^ i).
Proof.
  intros Hi. unfold backoffFor, mul64, shl64.
  rewrite Z.shiftl_1_l.
  destruct (wrap64_unfold (2 ^ i)) as [k ->].
  apply (wrap64_congr _ _ (BackoffBase rc * k)). lia.
Qed.

Lemma backoffFor_exact rc i :
  0 <= i → in_int64 (BackoffBase rc * 2 ^ i) →
  backoffFor rc i = BackoffBase rc * 2 ^ i.
Proof.
  intros Hi Hfit. rewrite backoffFor_wrap by done. by apply wrap64_in_range.
Qed.

(** ** The retry loop *)

Lemma lastFailure_cons lastErr err errs :
  lastFailure lastErr (err :: errs) = lastFailure (Some err) errs.
Proof.
  unfold lastFailure. rewrite last_cons. by destruct (last errs).
Qed.

Lemma retryLoop_shape E rc req left : ∀ attempt lastErr p h,
  ∃ errs tail,
    snd (retryLoop E rc req left attempt lastErr (p, h))
      = (p, h ++ failedRounds rc req attempt errs ++ tail) ∧
    retry_end rc req left attempt lastErr errs tail
      (fst (retryLoop E rc req left attempt lastErr (p, h))).
Proof.
  induction left as [|left IH]; intros attempt lastErr p h.
  - exists [], []. simpl. rewrite app_nil_r. split; [done|].
    right; right. by repeat split.
  - cbn [retryLoop]. unfold mbind, proxy_bind, getProxy, getHistory, emit, mret,
      proxy_ret.
    cbn [fst snd].
    destruct (makeRequest E h p req) as [response|err] eqn:Hans.
    + exists [], [EvMakeRequest attempt req (Ok response)].
      cbn [failedRounds app fst snd length]. split; [done|].
      left. exists response. rewrite Z.add_0_r. repeat split; try done; simpl; lia.
    + cbn [fst snd].
      destruct (ctxDone E (h ++ [EvMakeRequest attempt req (Err err)])
                  (backoffFor rc attempt)) as [e|] eqn:Hdone.
      * exists [], [EvMakeRequest attempt req (Err err);
                    EvSelect (backoffFor rc attempt) (Some e)].
        cbn [failedRounds app fst snd length]. split.
        -- by rewrite <- app_assoc.
        -- right; left. exists err, e. rewrite Z.add_0_r. repeat split; try done; simpl; lia.
      * destruct (IH (attempt + 1) (Some err) p
                    ((h ++ [EvMakeRequest attempt req (Err err)]) ++
                     [EvSelect (backoffFor rc attempt) None]))
          as (errs & tail & Hsnd & Hend).
        exists (err :: errs), tail. split.
        -- rewrite Hsnd. cbn [failedRounds]. by rewrite <- !app_assoc.
        -- unfold retry_end in *. cbn [length].
           replace (attempt + Z.of_nat (S (length errs)))
             with (attempt + 1 + Z.of_nat (length errs)) by lia.
           destruct Hend as [(response & Hlt & Htail & Hout)
                            |[(err' & e & Hlt & Htail & Hout)
                             |(Hlen & Htail & Hout)]].
           ++ left. exists response. repeat split; [lia|done|done].
           ++ right; left. exists err', e. repeat split; [lia|done|done].
           ++ right; right. repeat split; [lia|done|].
              by rewrite Hout, lastFailure_cons.
Qed.

Lemma attempts_app (a b : list event) : attempts (a ++ b) = attempts a ++ attempts b.
Proof.
  induction a as [|[t|i rq ans|d x] a IH]; simpl; [done| | |]; by rewrite IH.
Qed.

Lemma attempts_failedRounds rc req errs : ∀ attempt,
  attempts (failedRounds rc req attempt errs)
  = seqZ attempt (Z.of_nat (length errs)).
Proof.
  induction errs as [|err errs IH]; intros attempt; [done|].
  cbn [failedRounds attempts length].
  rewrite IH, (seqZ_cons attempt) by lia.
  do 2 f_equal; lia.
Qed.

Lemma makeRequestWithRetries_shape E req p h :
  let rc := cfg_RetryConfig (config p) in
  ∃ errs tail,
    snd (makeRequestWithRetries E req (p, h))
      = (p, h ++ failedRounds rc req 0 errs ++ tail) ∧
    retry_end rc req (Z.to_nat (MaxRetries rc)) 0 None errs tail
      (fst (makeRequestWithRetries E req (p, h))).
Proof.
  unfold makeRequestWithRetries, mbind, proxy_bind, getProxy. cbn [fst].
  apply retryLoop_shape.
Qed.

(** C4 (as stated) fails in two places. With one attempt allowed, a
    failing attempt and a context that ends during the wait after it,
    every attempt has failed and the error returned is the context's,
    not "max retries exceeded". And at attempt index 63 with a base of
    one nanosecond the delay computed is [-2^63], not [2^63]. *)
Lemma makeRequestWithRetries_not_always_exhausted :
  fst (makeRequestWithRetries (example_env (Err "boom") (Some DeadlineExceeded))
         (example_request "")
         (NewLLMProxy (config_with_retries 1 1000000000), []))
    = Err (ContextDone DeadlineExceeded) ∧
  attempts (snd (snd (makeRequestWithRetries
                        (example_env (Err "boom") (Some DeadlineExceeded))
                        (example_request "")
                        (NewLLMProxy (config_with_retries 1 1000000000), []))))
    = [0] ∧
  backoffFor {| MaxRetries := 64; BackoffBase := 1 |} 63 = - 2 ^ 63 ∧
  backoffFor {| MaxRetries := 64; BackoffBase := 1 |} 63 ≠ 1 * 2 ^ 63.
Proof.
  split; [reflexivity|]. split; [reflexivity|]. split; [reflexivity|].
  by vm_compute.
Qed.

(** C4 (amended): a call of [makeRequestWithRetries] adds to the history
    some number of failed rounds, numbered from 0, each an attempt
    followed by a wait of [backoffFor] that ran to its end, and then
    ends in one of three ways: an attempt succeeds and its response is
    returned at once; or one more attempt fails and the context ends
    during the wait that follows ([ctx.Err()] is returned); or the
    configured number of attempts is used up, each having failed and
    each wait having run to its end, and "max retries exceeded" is
    returned with the last failure. The attempts made are indices
    [0 .. k-1] for some [k] at most the configured maximum. The wait
    after attempt [i] is [BackoffBase * 2^i] whenever that product fits
    a 64-bit duration. *)
Theorem makeRequestWithRetries_rounds E req p h :
  let rc := cfg_RetryConfig (config p) in
  let out := makeRequestWithRetries E req (p, h) in
  (∃ errs tail,
     snd out = (p, h ++ failedRounds rc req 0 errs ++ tail) ∧
     retry_end rc req (Z.to_nat (MaxRetries rc)) 0 None errs tail (fst out) ∧
     ∃ k : nat, (k <= Z.to_nat (MaxRetries rc))%nat ∧
       attempts (failedRounds rc req 0 errs ++ tail) = seqZ 0 (Z.of_nat k))
  ∧
  (∀ i, 0 <= i → in_int64 (BackoffBase rc * 2 ^ i) →
        backoffFor rc i = BackoffBase rc * 2 ^ i).
Proof.
  intros rc out. split; [|intros i; apply backoffFor_exact].
  destruct (makeRequestWithRetries_shape E req p h) as (errs & tail & Hsnd & Hend).
  exists errs, tail. split; [done|]. split; [done|].
  rewrite attempts_app, attempts_failedRounds.
  destruct Hend as [(response & Hlt & -> & _)
                   |[(err & e & Hlt & -> & _)|(Hlen & -> & _)]].
  - exists (S (length errs)). split; [subst rc; lia|].
    by rewrite seqZ_S.
  - exists (S (length errs)). split; [subst rc; lia|].
    by rewrite seqZ_S.
  - exists (length errs). split; [subst rc; lia|].
    by rewrite app_nil_r.
Qed.

Lemma makeRequestWithRetries_rounds_witness :
  (∃ errs tail,
     snd (makeRequestWithRetries (example_env (Err "boom") None)
            (example_request "") (example_proxy, []))
       = (example_proxy,
          [] ++ failedRounds (cfg_RetryConfig example_config)
                  (example_request "") 0 errs ++ tail) ∧
     retry_end (cfg_RetryConfig example_config) (example_request "") 3 0 None
       errs tail
       (fst (makeRequestWithRetries (example_env (Err "boom") None)
               (example_request "") (example_proxy, []))) ∧
     ∃ k : nat, (k <= 3)%nat ∧
       attempts (failedRounds (cfg_RetryConfig example_config)
                   (example_request "") 0 errs ++ tail) = seqZ 0 (Z.of_nat k))
  ∧ backoffFor (cfg_RetryConfig example_config) 2 = 4000000000.
Proof.
  pose proof (makeRequestWithRetries_rounds (example_env (Err "boom") None)
                (example_request "") example_proxy []) as [Hshape Hdelay].
  split; [exact Hshape|].
  apply (Hdelay 2); [lia|]. unfold in_int64. simpl. lia.
Defined.

(** C10: with a maximum of zero or fewer attempts, [makeRequest] is
    never called, nothing is waited for, and the error returned is "max
    retries exceeded" wrapping a nil cause. *)
Theorem makeRequestWithRetries_no_attempts E req p h :
  MaxRetries (cfg_RetryConfig (config p)) <= 0 →
  makeRequestWithRetries E req (p, h) = (Err (MaxRetriesExceeded None), (p, h)).
Proof.
  intros Hmax. unfold makeRequestWithRetries, mbind, proxy_bind, getProxy.
  cbn [fst]. by rewrite Z2Nat.nonpos.
Qed.

Lemma makeRequestWithRetries_no_attempts_witness :
  makeRequestWithRetries (example_env (Ok (example_response 1)) None)
    (example_request "") (NewLLMProxy (config_with_retries 0 1000000000), [])
  = (Err (MaxRetriesExceeded None),
     (NewLLMProxy (config_with_retries 0 1000000000), [])).
Proof.
  apply (makeRequestWithRetries_no_attempts
           (example_env (Ok (example_response 1)) None) (example_request "")
           (NewLLMProxy (config_with_retries 0 1000000000)) []).
  simpl. lia.
Defined.

Lemma retryLoop_step E rc req left attempt lastErr p h :
  retryLoop E rc req (S left) attempt lastErr (p, h)
  = match makeRequest E h p req with
    | Ok response =>
        (Ok response, (p, h ++ [EvMakeRequest attempt req (Ok response)]))
    | Err err =>
        match ctxDone E (h ++ [EvMakeRequest attempt req (Err err)])
                (backoffFor rc attempt) with
        | Some e =>
            (Err (ContextDone e),
             (p, h ++ [EvMakeRequest attempt req (Err err);
                       EvSelect (backoffFor rc attempt) (Some e)]))
        | None =>
            retryLoop E rc req left (attempt + 1) (Some err)
              (p, h ++ [EvMakeRequest attempt req (Err err);
                        EvSelect (backoffFor rc attempt) None])
        end
    end.
Proof.
  cbn [retryLoop]. unfold mbind, proxy_bind, getProxy, getHistory, emit, mret,
    proxy_ret.
  cbn [fst snd].
  destruct (makeRequest E h p req) as [response|err]; [done|].
  cbn [fst snd].
  destruct (ctxDone E _ _) as [e|]; rewrite <- app_assoc; done.
Qed.

(** The events of a run of the retry loop, one by one: what the first
    one is, and what stands around every attempt and every [select]. *)
Lemma retryLoop_events E rc req p left : ∀ attempt lastErr h,
  ∃ new,
    snd (retryLoop E rc req left attempt lastErr (p, h)) = (p, h ++ new) ∧
    match new with
    | [] => left = O ∧
            fst (retryLoop E rc req left attempt lastErr (p, h))
            = Err (MaxRetriesExceeded lastErr)
    | first :: _ =>
        first = EvMakeRequest attempt req (makeRequest E h p req)
    end ∧
    (∀ pre i sent ans post,
       new = pre ++ EvMakeRequest i sent ans :: post →
       after_attempt E rc req p h pre i sent ans post
         (fst (retryLoop E rc req left attempt lastErr (p, h)))) ∧
    (∀ pre backoff done post,
       new = pre ++ EvSelect backoff done :: post →
       at_select E rc req p h pre backoff done post
         (fst (retryLoop E rc req left attempt lastErr (p, h)))).
Proof.
  induction left as [|left IH]; intros attempt lastErr h.
  - exists []. cbn [retryLoop mret proxy_ret fst snd]. rewrite app_nil_r.
    split; [done|]. split; [done|].
    split; intros pre; intros; by destruct pre.
  - rewrite retryLoop_step.
    destruct (makeRequest E h p req) as [response|err] eqn:Hans.
    { exists [EvMakeRequest attempt req (Ok response)]. cbn [fst snd].
      split; [done|]. split; [done|]. split.
      - intros pre i sent ans post Heq.
        destruct pre as [|x pre]; [|by destruct pre].
        injection Heq as <- <- <- <-. unfold after_attempt.
        by rewrite app_nil_r, Hans.
      - intros pre backoff done post Heq. by destruct pre as [|x [|y pre]]. }
    destruct (ctxDone E (h ++ [EvMakeRequest attempt req (Err err)])
                (backoffFor rc attempt)) as [e|] eqn:Hdone.
    { exists [EvMakeRequest attempt req (Err err);
              EvSelect (backoffFor rc attempt) (Some e)].
      cbn [fst snd]. split; [done|]. split; [done|]. split.
      - intros pre i sent ans post Heq.
        destruct pre as [|x [|y pre]]; [| |by destruct pre];
          simplify_eq/=.
        unfold after_attempt. cbn [app]. rewrite app_nil_r, Hans.
        split; [done|]. split; [done|]. exists []. by rewrite Hdone.
      - intros pre backoff done post Heq.
        destruct pre as [|x [|y pre]]; [| |by destruct pre];
          simplify_eq/=.
        unfold at_select. split; [done|].
        by exists [], attempt, err. }
    destruct (IH (attempt + 1) (Some err)
                (h ++ [EvMakeRequest attempt req (Err err);
                       EvSelect (backoffFor rc attempt) None]))
      as (new & Hsnd & Hfirst & Hattempt & Hselect).
    exists (EvMakeRequest attempt req (Err err)
            :: EvSelect (backoffFor rc attempt) None :: new).
    split; [by rewrite Hsnd, <- app_assoc|].
    split; [done|]. split.
    + intros pre i sent ans post Heq.
      destruct pre as [|x [|y pre]]; cbn [app] in Heq.
      * injection Heq as <- <- <- <-.
        unfold after_attempt. cbn [app]. rewrite app_nil_r, Hans.
        split; [done|]. split; [done|]. exists new. by rewrite Hdone.
      * simplify_eq/=.
      * injection Heq as <- <- Hrest.
        destruct (Hattempt _ _ _ _ _ Hrest) as (-> & Hanswer & Hnext).
        rewrite <- app_assoc in Hanswer.
        unfold after_attempt. split; [done|]. split; [done|].
        destruct ans as [response|err']; [done|].
        destruct Hnext as [rest ->]. exists rest. by rewrite <- !app_assoc.
    + intros pre backoff done post Heq.
      destruct pre as [|x [|y pre]]; cbn [app] in Heq.
      * simplify_eq/=.
      * injection Heq as <- <- <- <-.
        unfold at_select. cbn [app]. split; [done|].
        exists [], attempt, err. split; [done|]. split; [done|].
        destruct new as [|next post].
        -- by destruct Hfirst as [_ ->].
        -- by rewrite Hfirst.
      * injection Heq as <- <- Hrest.
        destruct (Hselect _ _ _ _ Hrest)
          as (Htie & pre' & i & err' & -> & -> & Hnext).
        rewrite <- !app_assoc in Htie, Hnext.
        unfold at_select. split; [done|].
        exists (EvMakeRequest attempt req (Err err)
                :: EvSelect (backoffFor rc attempt) None :: pre'), i, err'.
        split; [done|]. split; [done|].
        destruct done as [e|]; [done|].
        by destruct post as [|next post].
Qed.

(** C5: the place of the context in a call of [makeRequestWithRetries].
    The call only adds events to the history. Every [select] among them
    records the state of the context during that wait (the oracle's
    answer at that point), directly follows a failed attempt and waits
    that attempt's backoff; taken by [ctx.Done()] it is the last event
    (no further attempt, no further wait) and the call returns
    [ctx.Err()]; taken by the timer it is followed by the next attempt
    or, the attempts used up, by the return of that failure. Every
    attempt sends the request given and records the transport's answer,
    whatever the state of the context; a success ends the call and a
    failure is followed by the [select] on the context. With at least
    one attempt allowed, the first event is the first attempt. *)
Theorem makeRequestWithRetries_context_done E req p h :
  let rc := cfg_RetryConfig (config p) in
  let out := makeRequestWithRetries E req (p, h) in
  ∃ new,
    snd out = (p, h ++ new) ∧
    (∀ pre backoff done post,
       new = pre ++ EvSelect backoff done :: post →
       at_select E rc req p h pre backoff done post (fst out)) ∧
    (∀ pre i sent ans post,
       new = pre ++ EvMakeRequest i sent ans :: post →
       after_attempt E rc req p h pre i sent ans post (fst out)) ∧
    (0 < MaxRetries rc →
     ∃ rest, new = EvMakeRequest 0 req (makeRequest E h p req) :: rest).
Proof.
  intros rc out. subst out.
  unfold makeRequestWithRetries, mbind, proxy_bind, getProxy. cbn [fst].
  fold rc.
  destruct (retryLoop_events E rc req p (Z.to_nat (MaxRetries rc)) 0 None h)
    as (new & Hsnd & Hfirst & Hattempt & Hselect).
  exists new. split; [done|]. split; [done|]. split; [done|].
  intros Hpos. destruct new as [|first rest].
  - destruct Hfirst as [Hzero _]. lia.
  - exists rest. by rewrite Hfirst.
Qed.

(** Every attempt fails and the context is cancelled during the second
    wait: the call returns the cancellation, and the second attempt was
    made although the first wait had found the context open. *)
Lemma makeRequestWithRetries_context_done_witness :
  fst (makeRequestWithRetries env_cancelled_later (example_request "")
         (example_proxy, []))
    = Err (ContextDone Canceled) ∧
  snd (makeRequestWithRetries env_cancelled_later (example_request "")
         (example_proxy, []))
    = (example_proxy,
       [EvMakeRequest 0 (example_request "") (Err "boom");
        EvSelect 1000000000 None;
        EvMakeRequest 1 (example_request "") (Err "boom");
        EvSelect 2000000000 (Some Canceled)]).
Proof.
  destruct (makeRequestWithRetries_context_done env_cancelled_later
              (example_request "") example_proxy [])
    as (new & Hsnd & Hselect & Hattempt & Hfirst).
  vm_compute in Hsnd. injection Hsnd as <-.
  destruct (Hselect [EvMakeRequest 0 (example_request "") (Err "boom");
                     EvSelect 1000000000 None;
                     EvMakeRequest 1 (example_request "") (Err "boom")]
              2000000000 (Some Canceled) [] eq_refl)
    as (_ & _ & _ & _ & _ & _ & _ & Hout).
  split; [exact Hout|reflexivity].
Defined.

(** ** [ProcessRequest] *)

Ltac unfold_monad :=
  unfold mbind, proxy_bind, mret, proxy_ret, getProxy, getHistory, emit,
    setMetrics, setCache;
  cbn [fst snd config metrics cache].

Lemma now_run E p h :
  now E (p, h) = (timeNow E h, (p, h ++ [EvNow (timeNow E h)])).
Proof. reflexivity. Qed.

Lemma since_run E start p h :
  since E start (p, h)
  = (sat64 (timeNow E h - start), (p, h ++ [EvNow (timeNow E h)])).
Proof. reflexivity. Qed.

Lemma recordMetrics_run E latency tokens cost hit p h :
  recordMetrics E latency tokens cost hit (p, h)
  = (tt, ({| config := config p;
             metrics := recorded E (metrics p) latency tokens cost hit;
             cache := cache p |}, h)).
Proof. reflexivity. Qed.

Lemma cacheResponse_run E key response p h :
  key ≠ "" →
  cacheResponse E key response (p, h)
  = (tt, ({| config := config p; metrics := metrics p;
             cache := <[key := {| ce_Response := encodePayload E response;
                                  ce_Expiration := timeNow E h + cacheTTL E;
                                  ce_TokensUsed := pr_TokensUsed response;
                                  ce_Cost := pr_Cost response |}]> (cache p) |},
          h ++ [EvNow (timeNow E h)])).
Proof.
  intros Hkey%String.eqb_neq. unfold cacheResponse. by rewrite Hkey.
Qed.

Lemma cacheResponse_empty E response s : cacheResponse E "" response s = (tt, s).
Proof. reflexivity. Qed.

(** The store changes nothing but the cache and adds at most a clock
    reading. *)
Lemma cacheResponse_frame E key response p h :
  ∃ c h1,
    cacheResponse E key response (p, h)
    = (tt, ({| config := config p; metrics := metrics p; cache := c |},
            h ++ h1)) ∧
    (h1 = [] ∨ h1 = [EvNow (timeNow E h)]).
Proof.
  destruct (decide (key = "")) as [->|Hkey].
  - exists (cache p), []. rewrite cacheResponse_empty, app_nil_r.
    split; [by destruct p|by left].
  - eexists _, _. rewrite cacheResponse_run by done. split; [done|by right].
Qed.

(** The lookup leaves the proxy as it is, adds at most a clock reading,
    and hits only on a non-empty key with a stored entry that expires
    after the instant read. *)
Lemma checkCache_run E key p h :
  (checkCache E key (p, h) = (None, (p, h)) ∧
   (key = "" ∨ cache p !! key = None))
  ∨ (∃ entry, key ≠ "" ∧ cache p !! key = Some entry ∧
       ((timeNow E h < ce_Expiration entry ∧
         checkCache E key (p, h) = (Some entry, (p, h ++ [EvNow (timeNow E h)])))
        ∨ (ce_Expiration entry <= timeNow E h ∧
           checkCache E key (p, h) = (None, (p, h ++ [EvNow (timeNow E h)]))))).
Proof.
  unfold checkCache. unfold_monad.
  destruct (String.eqb key "") eqn:Hkey.
  - left. apply String.eqb_eq in Hkey. by split; [|left].
  - apply String.eqb_neq in Hkey.
    destruct (cache p !! key) as [entry|] eqn:Hlook.
    + right. exists entry. split; [done|]. split; [done|].
      unfold now. unfold_monad.
      destruct (timeNow E h <? ce_Expiration entry) eqn:Hexp.
      * left. apply Z.ltb_lt in Hexp. by split.
      * right. apply Z.ltb_ge in Hexp. by split.
    + left. by split; [|right].
Qed.

Lemma filtered_CacheKey cfg req : CacheKey (filtered cfg req) = CacheKey req.
Proof. unfold filtered. by destruct (FilterFunction cfg). Qed.

Lemma ProcessRequest_denied E req p h :
  Qle_bool (CostLimit (config p)) (EstimatedCost (metrics p)) = true →
  ProcessRequest E req (p, h)
  = (Err (CostLimitExceeded (CostLimit (config p))),
     (p, h ++ [EvNow (timeNow E h)])).
Proof.
  intros Hle. unfold ProcessRequest, checkRateLimits, now. unfold_monad.
  by rewrite Hle.
Qed.

(** [ProcessRequest] once the admission check has passed, in terms of
    its lookup. *)
Lemma ProcessRequest_admitted E req p h :
  Qle_bool (CostLimit (config p)) (EstimatedCost (metrics p)) = false →
  ProcessRequest E req (p, h) =
  let start := timeNow E h in
  let req' := filtered (config p) req in
  let '(lookup, s1) :=
    (if CacheEnabled (config p) then checkCache E (CacheKey req') else mret None)
      (p, h ++ [EvNow start]) in
  match lookup with
  | Some cached =>
      let '(_, s2) :=
        recordMetrics E 0 (ce_TokensUsed cached) (ce_Cost cached) true s1 in
      let '(latency, s3) := since E start s2 in
      (Ok {| pr_Text := ce_Response cached; pr_CacheHit := true;
             pr_TokensUsed := ce_TokensUsed cached; pr_Cost := ce_Cost cached;
             pr_Latency := latency; pr_Model := ""; pr_Metadata := ∅ |}, s3)
  | None =>
      let '(answer, s2) := makeRequestWithRetries E req' s1 in
      match answer with
      | Err err => (Err err, s2)
      | Ok response =>
          let '(latency, s3) := since E start s2 in
          let '(_, s4) :=
            recordMetrics E latency (pr_TokensUsed response) (pr_Cost response)
              false s3 in
          let '(_, s5) :=
            (if CacheEnabled (config p)
             then cacheResponse E (CacheKey req') response else mret tt) s4 in
          (Ok response, s5)
      end
  end.
Proof.
  intros Hle. unfold ProcessRequest at 1, checkRateLimits, now. unfold_monad.
  rewrite Hle. cbn [fst snd].
  destruct (CacheEnabled (config p)).
  - destruct (checkCache E (CacheKey (filtered (config p) req))
                (p, h ++ [EvNow (timeNow E h)])) as [[cached|] s1];
      [reflexivity|].
    destruct (makeRequestWithRetries E (filtered (config p) req) s1)
      as [[response|err] s2]; reflexivity.
  - destruct (makeRequestWithRetries E (filtered (config p) req)
                (p, h ++ [EvNow (timeNow E h)]))
      as [[response|err] s2]; reflexivity.
Qed.

Lemma makeRequestWithRetries_answer E req p h :
  ∃ new, snd (makeRequestWithRetries E req (p, h)) = (p, h ++ new) ∧
    ∀ response, fst (makeRequestWithRetries E req (p, h)) = Ok response →
      ∃ i, EvMakeRequest i req (Ok response) ∈ new.
Proof.
  destruct (makeRequestWithRetries_shape E req p h) as (errs & tail & Hsnd & Hend).
  eexists. split; [exact Hsnd|].
  intros response Hok. rewrite Hok in Hend.
  destruct Hend as [(response' & _ & -> & [= ->])
                   |[(err & e & _ & _ & [=])|(_ & _ & [=])]].
  eexists. apply elem_of_app. right. apply list_elem_of_singleton. reflexivity.
Qed.


Lemma processAll_cons E req rest s :
  processAll E (req :: rest) s =
  let '(a, s1) := ProcessRequest E req s in
  let '(more, s2) := processAll E rest s1 in
  (a :: more, s2).
Proof.
  cbn [processAll]. unfold_monad.
  destruct (ProcessRequest E req s) as [a s1].
  by destruct (processAll E rest s1).
Qed.






Lemma waits_app (a b : list event) : waits (a ++ b) = waits a ++ waits b.
Proof.
  induction a as [|[t|i rq ans|d x] a IH]; simpl; [done| | |]; by rewrite IH.
Qed.

Lemma processAll_denied E limit reqs p : ∀ h,
  CostLimit (config p) = limit →
  Qle_bool limit (EstimatedCost (metrics p)) = true →
  ∃ new,
    processAll E reqs (p, h)
    = (replicate (length reqs) (Err (CostLimitExceeded limit)), (p, h ++ new)) ∧
    attempts new = [] ∧ waits new = [].
Proof.
  intros h <- Hle. revert h.
  induction reqs as [|req rest IH]; intros h.
  - exists []. by rewrite app_nil_r.
  - rewrite processAll_cons, ProcessRequest_denied by done.
    destruct (IH (h ++ [EvNow (timeNow E h)])) as (new & -> & Hatt & Hwait).
    exists (EvNow (timeNow E h) :: new). by rewrite <- app_assoc.
Qed.

(** C1: when the cumulative estimated cost has reached the cost limit,
    [ProcessRequest] fails with the "daily cost limit exceeded" error
    carrying the configured limit; it reads the clock and does nothing
    else: no [makeRequest] call, no wait, the metrics and the cache
    unchanged. The state in which it fails is therefore kept, and every
    later call on that proxy fails the same way. *)
Theorem ProcessRequest_cost_limit_reached E p h :
  (CostLimit (config p) <= EstimatedCost (metrics p))%Q →
  (∀ req,
     ProcessRequest E req (p, h)
     = (Err (CostLimitExceeded (CostLimit (config p))),
        (p, h ++ [EvNow (timeNow E h)])))
  ∧
  (∀ reqs, ∃ new,
     processAll E reqs (p, h)
     = (replicate (length reqs) (Err (CostLimitExceeded (CostLimit (config p)))),
        (p, h ++ new)) ∧
     attempts new = [] ∧ waits new = []).
Proof.
  intros Hle%Qle_bool_iff. split.
  - intros req. by apply ProcessRequest_denied.
  - intros reqs. by apply processAll_denied.
Qed.

Lemma ProcessRequest_cost_limit_reached_witness :
  ProcessRequest (example_env (Ok (example_response 1)) None)
    (example_request "k") (proxy_with_cost 50, [])
  = (Err (CostLimitExceeded 50), (proxy_with_cost 50, [] ++ [EvNow 0]))
  ∧
  ∃ new,
    processAll (example_env (Ok (example_response 1)) None)
      [example_request "k"; example_request ""] (proxy_with_cost 50, [])
    = (replicate 2 (Err (CostLimitExceeded 50)), (proxy_with_cost 50, [] ++ new)) ∧
    attempts new = [] ∧ waits new = [].
Proof.
  assert ((CostLimit (config (proxy_with_cost 50))
           <= EstimatedCost (metrics (proxy_with_cost 50)))%Q) as Hle
    by (vm_compute; discriminate).
  pose proof (ProcessRequest_cost_limit_reached
                (example_env (Ok (example_response 1)) None)
                (proxy_with_cost 50) [] Hle) as [Hone Hall].
  split.
  - apply (Hone (example_request "k")).
  - apply (Hall [example_request "k"; example_request ""]).
Defined.

(** C3 (as stated) fails: the admission check comes before the cache.
    With caching enabled, the key ["k"] present and an unexpired entry
    stored for it, a proxy whose cost has reached the limit answers with
    the cost-limit error, not with the cached response, and records
    nothing. *)
Lemma ProcessRequest_hit_needs_admission :
  CacheEnabled (config (proxy_with_cost 50)) = true ∧
  CacheKey (example_request "k") ≠ "" ∧
  cache (proxy_with_cost 50) !! CacheKey (example_request "k")
    = Some example_entry ∧
  timeNow (example_env (Err "boom") None) [EvNow 0] < ce_Expiration example_entry ∧
  ProcessRequest (example_env (Err "boom") None) (example_request "k")
    (proxy_with_cost 50, [])
  = (Err (CostLimitExceeded 50), (proxy_with_cost 50, [EvNow 0])).
Proof.
  split; [reflexivity|]. split; [discriminate|]. split; [reflexivity|].
  split; reflexivity.
Qed.

(** C3 (amended): for a request that passes the admission check
    (cumulative cost below the limit), with caching enabled, a non-empty
    cache key and an entry stored for that key whose expiration is after
    the instant read at the lookup, [ProcessRequest] returns the cached
    payload, tokens and cost with the cache-hit flag set, records one
    outcome with latency zero and the cache-hit counter incremented
    (adding the entry's tokens and cost to the totals), leaves the cache
    as it is, and adds three clock readings and nothing else to the
    history: no [makeRequest] call and no wait. *)
Theorem ProcessRequest_cache_hit E req p h entry :
  let start := timeNow E h in
  let looked := timeNow E (h ++ [EvNow start]) in
  let finish := timeNow E (h ++ [EvNow start; EvNow looked]) in
  ¬ (CostLimit (config p) <= EstimatedCost (metrics p))%Q →
  CacheEnabled (config p) = true →
  CacheKey req ≠ "" →
  cache p !! CacheKey req = Some entry →
  looked < ce_Expiration entry →
  ProcessRequest E req (p, h)
  = (Ok {| pr_Text := ce_Response entry;
           pr_TokensUsed := ce_TokensUsed entry;
           pr_Cost := ce_Cost entry;
           pr_CacheHit := true;
           pr_Latency := sat64 (finish - start);
           pr_Model := "";
           pr_Metadata := ∅ |},
     ({| config := config p;
         metrics :=
           {| TotalRequests := add64 (TotalRequests (metrics p)) 1;
              CacheHits := add64 (CacheHits (metrics p)) 1;
              Latency := add64 (Latency (metrics p)) 0;
              TokensUsed := add64 (TokensUsed (metrics p)) (ce_TokensUsed entry);
              EstimatedCost :=
                addCost E (EstimatedCost (metrics p)) (ce_Cost entry) |};
         cache := cache p |},
      h ++ [EvNow start; EvNow looked; EvNow finish]))
  ∧ attempts [EvNow start; EvNow looked; EvNow finish] = []
  ∧ waits [EvNow start; EvNow looked; EvNow finish] = []
  ∧ (in_int64 (Latency (metrics p)) →
     add64 (Latency (metrics p)) 0 = Latency (metrics p)).
Proof.
  intros start looked finish Hadm Hen Hkey Hlook Hexp.
  split; [|split; [done|split; [done|]]].
  - assert (Qle_bool (CostLimit (config p)) (EstimatedCost (metrics p)) = false)
      as Hle.
    { destruct (Qle_bool _ _) eqn:Hb; [|done]. by apply Qle_bool_iff in Hb. }
    rewrite (ProcessRequest_admitted E req p h Hle). cbn zeta.
    rewrite Hen, filtered_CacheKey.
    destruct (checkCache_run E (CacheKey req) p (h ++ [EvNow (timeNow E h)]))
      as [[_ [Hempty|Hnone]]|(entry' & _ & Hlook' & [[_ ->]|[Hexp' _]])].
    + done.
    + by rewrite Hlook in Hnone.
    + rewrite Hlook in Hlook'. injection Hlook' as <-.
      rewrite recordMetrics_run, since_run.
      by rewrite <- !app_assoc.
    + rewrite Hlook in Hlook'. injection Hlook' as <-.
      subst looked start. lia.
  - intros Hfit. unfold add64. rewrite Z.add_0_r. by apply wrap64_in_range.
Qed.

Lemma ProcessRequest_cache_hit_witness :
  fst (ProcessRequest (example_env (Err "boom") None) (example_request "k")
         (proxy_with_cost 49, []))
  = Ok {| pr_Text := "Qubits"; pr_TokensUsed := 12; pr_Cost := 1 # 2;
          pr_CacheHit := true; pr_Latency := 2000000000;
          pr_Model := ""; pr_Metadata := ∅ |}.
Proof.
  assert (¬ (CostLimit (config (proxy_with_cost 49))
             <= EstimatedCost (metrics (proxy_with_cost 49)))%Q) as Hadm
    by (vm_compute; intros Hle; by apply Hle).
  assert (CacheKey (example_request "k") ≠ "") as Hkey by discriminate.
  assert (timeNow (example_env (Err "boom") None)
            ([] ++ [EvNow (timeNow (example_env (Err "boom") None) [])])
          < ce_Expiration example_entry) as Hexp by reflexivity.
  pose proof (ProcessRequest_cache_hit (example_env (Err "boom") None)
                (example_request "k") (proxy_with_cost 49) [] example_entry
                Hadm eq_refl Hkey eq_refl Hexp) as [Hrun _].
  rewrite Hrun. reflexivity.
Defined.




End ProxyProperties.

(** * Further properties of the router *)

Section RouterComposition.
Import Router.

Lemma tryCandidates_agree r r' req chain : ∀ h,
  providers r !! req_Provider req = providers r' !! req_Provider req →
  tryCandidates r req chain h = tryCandidates r' req chain h.
Proof.
  induction chain as [|c chain IH]; intros h Hp; simpl; [done|].
  rewrite <- Hp. destruct (providers r !! req_Provider req); [|by apply IH].
  unfold callIsAvailable, callGenerateText.
  destruct (IsAvailable _ _); [|by apply IH].
  destruct (GenerateText _ _ _); [done|by apply IH].
Qed.

Lemma RouteRequest_agree r r' req h :
  providers r !! req_Provider req = providers r' !! req_Provider req →
  fallbacks r !! req_ModelName req = fallbacks r' !! req_ModelName req →
  RouteRequest r req h = RouteRequest r' req h.
Proof.
  intros Hp Hfb.
  assert (∀ h', tryFallbacks r req h' = tryFallbacks r' req h') as Htry.
  { intros h'. unfold tryFallbacks. rewrite <- Hfb.
    destruct (fallbacks r !! req_ModelName req); [|done].
    by apply tryCandidates_agree. }
  unfold RouteRequest. rewrite <- Hp.
  destruct (providers r !! req_Provider req); [|done].
  unfold callIsAvailable, callGenerateText.
  destruct (IsAvailable _ _); [|by apply Htry].
  destruct (GenerateText _ _ _); [done|by apply Htry].
Qed.

(** X1: [RouteRequest] reads the router only at the provider registered
    under the request's provider id and at the chain configured for the
    request's model name: two routers that agree on these two entries
    give the same answer and make the same provider calls. *)
Theorem RouteRequest_reads_two_entries r r' req h :
  providers r !! req_Provider req = providers r' !! req_Provider req →
  fallbacks r !! req_ModelName req = fallbacks r' !! req_ModelName req →
  RouteRequest r req h = RouteRequest r' req h.
Proof. apply RouteRequest_agree. Qed.

Lemma RouteRequest_reads_two_entries_witness :
  RouteRequest
    (SetFallbacks (RegisterProvider (router_with provider_no_m1)
                     "cohere" provider_down) "m2" ["m1"])
    request_m1 []
  = RouteRequest (router_with provider_no_m1) request_m1 [].
Proof.
  apply (RouteRequest_reads_two_entries
           (SetFallbacks (RegisterProvider (router_with provider_no_m1)
                            "cohere" provider_down) "m2" ["m1"])
           (router_with provider_no_m1) request_m1 []); reflexivity.
Defined.

(** X2: [RegisterProvider] then [RouteRequest]. The client registered
    last under an id is the one looked up; registering again under the
    same id replaces the earlier client, which plays no part in later
    routing; and registering under an id other than the request's
    changes nothing for that request. *)
Theorem RegisterProvider_then_route r id c1 c2 req h :
  providers (RegisterProvider r id c2) !! id = Some c2 ∧
  RegisterProvider (RegisterProvider r id c1) id c2 = RegisterProvider r id c2 ∧
  (id ≠ req_Provider req →
   RouteRequest (RegisterProvider r id c2) req h = RouteRequest r req h).
Proof.
  split; [|split].
  - simpl. apply lookup_insert_eq.
  - unfold RegisterProvider. simpl. by rewrite insert_insert_eq.
  - intros Hne. apply RouteRequest_agree; [|done].
    simpl. by rewrite lookup_insert_ne.
Qed.

Lemma RegisterProvider_then_route_witness :
  RouteRequest (RegisterProvider (router_with provider_no_m1) "cohere" provider_down)
    request_m1 []
  = RouteRequest (router_with provider_no_m1) request_m1 [].
Proof.
  apply (proj2 (proj2 (RegisterProvider_then_route (router_with provider_no_m1)
                         "cohere" provider_failing provider_down request_m1 []))).
  discriminate.
Defined.

(** X3: [SetFallbacks] then [RouteRequest]. The chain set last for a
    model name is the one looked up; setting it again replaces the
    earlier chain entirely (the lists are not merged); and setting the
    chain of a model name other than the request's changes nothing for
    that request. *)
Theorem SetFallbacks_then_route r m chain1 chain2 req h :
  fallbacks (SetFallbacks r m chain2) !! m = Some chain2 ∧
  SetFallbacks (SetFallbacks r m chain1) m chain2 = SetFallbacks r m chain2 ∧
  (m ≠ req_ModelName req →
   RouteRequest (SetFallbacks r m chain2) req h = RouteRequest r req h).
Proof.
  split; [|split].
  - simpl. apply lookup_insert_eq.
  - unfold SetFallbacks. simpl. by rewrite insert_insert_eq.
  - intros Hne. apply RouteRequest_agree; [done|].
    simpl. by rewrite lookup_insert_ne.
Qed.

Lemma SetFallbacks_then_route_witness :
  RouteRequest (SetFallbacks (router_with provider_no_m1) "m2" ["m1"; "m3"])
    request_m1 []
  = RouteRequest (router_with provider_no_m1) request_m1 [].
Proof.
  apply (proj2 (proj2 (SetFallbacks_then_route (router_with provider_no_m1)
                         "m2" [] ["m1"; "m3"] request_m1 []))).
  discriminate.
Defined.

(** X4: a chain that is configured but empty is not the same as no
    chain. When the primary attempt does not succeed, the request ends
    with "all fallbacks failed" instead of "no fallbacks configured";
    the provider calls made are the same in both cases. *)
Theorem SetFallbacks_empty_chain r p req h :
  providers r !! req_Provider req = Some p →
  primary_succeeds p req h = false →
  fst (RouteRequest (SetFallbacks r (req_ModelName req) []) req h)
    = Err AllFallbacksFailed ∧
  fst (RouteRequest {| providers := providers r; fallbacks := ∅ |} req h)
    = Err NoFallbacksConfigured ∧
  snd (RouteRequest (SetFallbacks r (req_ModelName req) []) req h)
    = snd (RouteRequest {| providers := providers r; fallbacks := ∅ |} req h).
Proof.
  intros Hp Hprim. unfold primary_succeeds in Hprim.
  rewrite (RouteRequest_primary (SetFallbacks r (req_ModelName req) []) p req h)
    by done.
  rewrite (RouteRequest_primary {| providers := providers r; fallbacks := ∅ |}
             p req h) by done.
  cbn zeta. unfold tryFallbacks. simpl.
  rewrite lookup_insert_eq, lookup_empty. simpl.
  destruct (IsAvailable p h); [|done].
  simpl in Hprim. by destruct (GenerateText p _ req).
Qed.

Lemma SetFallbacks_empty_chain_witness :
  fst (RouteRequest (SetFallbacks (router_with provider_failing) "m1" [])
         request_m1 []) = Err AllFallbacksFailed ∧
  fst (RouteRequest {| providers := providers (router_with provider_failing);
                       fallbacks := ∅ |} request_m1 [])
    = Err NoFallbacksConfigured ∧
  snd (RouteRequest (SetFallbacks (router_with provider_failing) "m1" [])
         request_m1 [])
    = snd (RouteRequest {| providers := providers (router_with provider_failing);
                           fallbacks := ∅ |} request_m1 []).
Proof.
  apply (SetFallbacks_empty_chain (router_with provider_failing)
           provider_failing request_m1 []); reflexivity.
Defined.

Lemma tryCandidates_calls r req chain : ∀ h,
  ∃ new, snd (tryCandidates r req chain h) = h ++ new ∧
         (length new <= 2 * length chain)%nat ∧
         (length (generations new) <= length chain)%nat.
Proof.
  induction chain as [|c chain IH]; intros h; simpl.
  - exists []. by rewrite app_nil_r.
  - destruct (providers r !! req_Provider req) as [p|].
    + unfold callIsAvailable, callGenerateText.
      destruct (IsAvailable p h).
      * destruct (GenerateText p _ (withModelName req c)) as [resp|err] eqn:Hans.
        -- exists [EvIsAvailable (req_Provider req) true;
                   EvGenerateText (req_Provider req) (withModelName req c) (Ok resp)].
           split; [by rewrite <- app_assoc|]. simpl. lia.
        -- destruct (IH ((h ++ [EvIsAvailable (req_Provider req) true]) ++
                         [EvGenerateText (req_Provider req)
                            (withModelName req c) (Err err)]))
             as (new & -> & Hlen & Hgen).
           exists (EvIsAvailable (req_Provider req) true ::
                   EvGenerateText (req_Provider req) (withModelName req c) (Err err)
                   :: new).
           split; [by rewrite <- !app_assoc|]. simpl. lia.
      * destruct (IH (h ++ [EvIsAvailable (req_Provider req) false]))
          as (new & -> & Hlen & Hgen).
        exists (EvIsAvailable (req_Provider req) false :: new).
        split; [by rewrite <- app_assoc|]. simpl. lia.
    + destruct (IH h) as (new & -> & Hlen & Hgen).
      exists new. split; [done|]. lia.
Qed.

Lemma tryFallbacks_calls r req h :
  ∃ new, snd (tryFallbacks r req h) = h ++ new ∧
         (length new <= 2 * length (chain_of r req))%nat ∧
         (length (generations new) <= length (chain_of r req))%nat.
Proof.
  unfold tryFallbacks, chain_of.
  destruct (fallbacks r !! req_ModelName req) as [chain|]; simpl.
  - apply tryCandidates_calls.
  - exists []. by rewrite app_nil_r.
Qed.

(** X5: one call of [RouteRequest] makes at most one generation call for
    the requested model and one per entry of its fallback chain, and at
    most twice as many provider calls in all (each generation is
    preceded by one availability check); with no chain configured that
    is at most one generation and two calls. *)
Theorem RouteRequest_call_bound r req h :
  ∃ new, snd (RouteRequest r req h) = h ++ new ∧
         (length (generations new) <= 1 + length (chain_of r req))%nat ∧
         (length new <= 2 + 2 * length (chain_of r req))%nat.
Proof.
  destruct (providers r !! req_Provider req) as [p|] eqn:Hp.
  - rewrite (RouteRequest_primary r p req h Hp). cbn zeta.
    destruct (IsAvailable p h).
    + destruct (GenerateText p _ req) as [resp|e].
      * exists [EvIsAvailable (req_Provider req) true;
                EvGenerateText (req_Provider req) req (Ok resp)].
        split; [by rewrite <- app_assoc|]. simpl. lia.
      * destruct (tryFallbacks_calls r req
                    ((h ++ [EvIsAvailable (req_Provider req) true]) ++
                     [EvGenerateText (req_Provider req) req (Err e)]))
          as (new & -> & Hlen & Hgen).
        exists (EvIsAvailable (req_Provider req) true ::
                EvGenerateText (req_Provider req) req (Err e) :: new).
        split; [by rewrite <- !app_assoc|]. simpl. lia.
    + destruct (tryFallbacks_calls r req
                  (h ++ [EvIsAvailable (req_Provider req) false]))
        as (new & -> & Hlen & Hgen).
      exists (EvIsAvailable (req_Provider req) false :: new).
      split; [by rewrite <- app_assoc|]. simpl. lia.
  - unfold RouteRequest. rewrite Hp. exists []. simpl.
    split; [by rewrite app_nil_r|]. lia.
Qed.

Lemma ends_as_cons req out ev new :
  Forall failed_generation (generations [ev]) →
  ends_as req out new → ends_as req out (ev :: new).
Proof.
  intros Hev. unfold ends_as. destruct out as [resp|e].
  - intros (pre & rq & -> & Hpre). exists (ev :: pre), rq. split; [done|].
    change (ev :: pre) with ([ev] ++ pre). rewrite generations_app.
    by apply Forall_app.
  - intros Hall. change (ev :: new) with ([ev] ++ new).
    rewrite generations_app. by apply Forall_app.
Qed.

Lemma tryCandidates_ends r req chain : ∀ h,
  ∃ new, snd (tryCandidates r req chain h) = h ++ new ∧
         ends_as req (fst (tryCandidates r req chain h)) new.
Proof.
  induction chain as [|c chain IH]; intros h; simpl.
  - exists []. rewrite app_nil_r. split; [done|constructor].
  - destruct (providers r !! req_Provider req) as [p|]; [|apply IH].
    unfold callIsAvailable, callGenerateText.
    destruct (IsAvailable p h).
    + destruct (GenerateText p _ (withModelName req c)) as [resp|err] eqn:Hans.
      * exists [EvIsAvailable (req_Provider req) true;
                EvGenerateText (req_Provider req) (withModelName req c) (Ok resp)].
        split; [by rewrite <- app_assoc|].
        exists [EvIsAvailable (req_Provider req) true], (withModelName req c).
        split; [done|constructor].
      * destruct (IH ((h ++ [EvIsAvailable (req_Provider req) true]) ++
                      [EvGenerateText (req_Provider req)
                         (withModelName req c) (Err err)]))
          as (new & Hsnd & Hend).
        exists (EvIsAvailable (req_Provider req) true ::
                EvGenerateText (req_Provider req) (withModelName req c) (Err err)
                :: new).
        split; [rewrite Hsnd; by rewrite <- !app_assoc|].
        apply ends_as_cons; [constructor|].
        apply ends_as_cons; [by repeat constructor|done].
    + destruct (IH (h ++ [EvIsAvailable (req_Provider req) false]))
        as (new & Hsnd & Hend).
      exists (EvIsAvailable (req_Provider req) false :: new).
      split; [rewrite Hsnd; by rewrite <- app_assoc|].
      apply ends_as_cons; [constructor|done].
Qed.

Lemma tryFallbacks_ends r req h :
  ∃ new, snd (tryFallbacks r req h) = h ++ new ∧
         ends_as req (fst (tryFallbacks r req h)) new.
Proof.
  unfold tryFallbacks.
  destruct (fallbacks r !! req_ModelName req) as [chain|].
  - apply tryCandidates_ends.
  - exists []. rewrite app_nil_r. split; [done|constructor].
Qed.

(** X6: [RouteRequest] returns a response exactly when a generation of
    the call succeeded, and that generation is the last provider call of
    the call: on [Ok resp] the events added end with a generation sent
    to the request's provider id that answered [resp], and every earlier
    generation of the call failed; on an error every generation of the
    call failed. No success is dropped and no response is made up. *)
Theorem RouteRequest_outcome r req h :
  ∃ new, snd (RouteRequest r req h) = h ++ new ∧
    match fst (RouteRequest r req h) with
    | Ok resp =>
        ∃ pre rq, new = pre ++ [EvGenerateText (req_Provider req) rq (Ok resp)] ∧
                  Forall failed_generation (generations pre)
    | Err _ => Forall failed_generation (generations new)
    end.
Proof.
  change (∃ new, snd (RouteRequest r req h) = h ++ new ∧
                 ends_as req (fst (RouteRequest r req h)) new).
  destruct (providers r !! req_Provider req) as [p|] eqn:Hp.
  - rewrite (RouteRequest_primary r p req h Hp). cbn zeta.
    destruct (IsAvailable p h).
    + destruct (GenerateText p _ req) as [resp|e].
      * exists [EvIsAvailable (req_Provider req) true;
                EvGenerateText (req_Provider req) req (Ok resp)].
        split; [by rewrite <- app_assoc|].
        exists [EvIsAvailable (req_Provider req) true], req.
        split; [done|constructor].
      * destruct (tryFallbacks_ends r req
                    ((h ++ [EvIsAvailable (req_Provider req) true]) ++
                     [EvGenerateText (req_Provider req) req (Err e)]))
          as (new & Hsnd & Hend).
        exists (EvIsAvailable (req_Provider req) true ::
                EvGenerateText (req_Provider req) req (Err e) :: new).
        split; [rewrite Hsnd; by rewrite <- !app_assoc|].
        apply ends_as_cons; [constructor|].
        apply ends_as_cons; [by repeat constructor|done].
    + destruct (tryFallbacks_ends r req
                  (h ++ [EvIsAvailable (req_Provider req) false]))
        as (new & Hsnd & Hend).
      exists (EvIsAvailable (req_Provider req) false :: new).
      split; [rewrite Hsnd; by rewrite <- app_assoc|].
      apply ends_as_cons; [constructor|done].
  - unfold RouteRequest. rewrite Hp. exists []. simpl.
    split; [by rewrite app_nil_r|constructor].
Qed.

(** X7: with a client built by [NewOpenAIProvider] registered under the
    request's provider id, [RouteRequest] answers every request at the
    primary attempt, after one availability check and one generation
    and without looking at any fallback chain. The model name of the
    request is echoed whatever it is: the client's [models] table is
    never consulted. The response names ["openai"] as provider whatever
    id the client is registered under. *)
Theorem RouteRequest_OpenAIProvider r key req h :
  providers r !! req_Provider req = Some (asModelProvider (NewOpenAIProvider key)) →
  RouteRequest r req h =
    (Ok {| resp_Text := "Sample response";
           resp_Provider := "openai";
           resp_ModelName := req_ModelName req;
           resp_TokensUsed := 0;
           resp_Latency := 0;
           resp_Metadata := ∅ |},
     h ++ [EvIsAvailable (req_Provider req) true;
           EvGenerateText (req_Provider req) req
             (OpenAIProvider_GenerateText (NewOpenAIProvider key) req)]).
Proof.
  intros Hp. rewrite (RouteRequest_primary r _ req h Hp). cbn zeta. simpl.
  by rewrite <- app_assoc.
Qed.

(** A model the client does not list, registered under another id. *)
Lemma RouteRequest_OpenAIProvider_witness :
  fst (RouteRequest
         (RegisterProvider NewModelRouter Anthropic
            (asModelProvider (NewOpenAIProvider "api-key")))
         request_claude [])
  = Ok {| resp_Text := "Sample response"; resp_Provider := "openai";
          resp_ModelName := "claude-3"; resp_TokensUsed := 0;
          resp_Latency := 0; resp_Metadata := ∅ |}.
Proof.
  rewrite (RouteRequest_OpenAIProvider
             (RegisterProvider NewModelRouter Anthropic
                (asModelProvider (NewOpenAIProvider "api-key")))
             "api-key" request_claude [] eq_refl).
  reflexivity.
Defined.

(** X8: [tryFallbacks] on a request whose provider id is not registered,
    with a chain configured for its model: every candidate is passed
    over, no provider is called, and the error is "all fallbacks
    failed", not "provider not found". *)
Theorem tryFallbacks_unregistered r req chain h :
  providers r !! req_Provider req = None →
  fallbacks r !! req_ModelName req = Some chain →
  tryFallbacks r req h = (Err AllFallbacksFailed, h).
Proof.
  intros Hp Hfb. unfold tryFallbacks. rewrite Hfb. clear Hfb.
  induction chain as [|c chain IH]; simpl; [done|]. by rewrite Hp.
Qed.

Lemma tryFallbacks_unregistered_witness :
  tryFallbacks (SetFallbacks NewModelRouter "m1" ["m2"; "m3"]) request_m1 []
  = (Err AllFallbacksFailed, []).
Proof.
  apply (tryFallbacks_unregistered (SetFallbacks NewModelRouter "m1" ["m2"; "m3"])
           request_m1 ["m2"; "m3"] []); reflexivity.
Defined.

End RouterComposition.

(** * Further properties of the proxy pipeline *)

Section ProxyComposition.
Import Proxy.

Ltac unfold_state_monad :=
  unfold mbind, proxy_bind, mret, proxy_ret, getProxy, getHistory, emit,
    setMetrics, setCache;
  cbn [fst snd config metrics cache].

(** ** What one call does to the proxy *)

Lemma requests_sent_app (a b : list event) :
  requests_sent (a ++ b) = requests_sent a ++ requests_sent b.
Proof.
  induction a as [|[t|i rq ans|d x] a IH]; simpl; [done| | |]; by rewrite IH.
Qed.

Lemma requests_sent_failedRounds rc req errs : ∀ attempt,
  Forall (fun r => r = req) (requests_sent (failedRounds rc req attempt errs)).
Proof.
  induction errs as [|err errs IH]; intros attempt; simpl; [constructor|].
  constructor; [done|apply IH].
Qed.

Lemma makeRequestWithRetries_effect E req p h :
  ∃ new, snd (makeRequestWithRetries E req (p, h)) = (p, h ++ new) ∧
         Forall (fun r => r = req) (requests_sent new) ∧
         ∀ limit, fst (makeRequestWithRetries E req (p, h))
                  ≠ Err (CostLimitExceeded limit).
Proof.
  destruct (makeRequestWithRetries_shape E req p h) as (errs & tail & Hsnd & Hend).
  eexists. split; [exact Hsnd|].
  rewrite requests_sent_app.
  destruct Hend as [(response & _ & -> & ->)
                   |[(err & e & _ & -> & ->)|(_ & -> & ->)]].
  - split; [|done]. apply Forall_app. split.
    + apply requests_sent_failedRounds.
    + simpl. by repeat constructor.
  - split; [|done]. apply Forall_app. split.
    + apply requests_sent_failedRounds.
    + simpl. by repeat constructor.
  - split; [|done]. apply Forall_app. split.
    + apply requests_sent_failedRounds.
    + constructor.
Qed.

(** The lookup only reads the proxy. *)
Lemma lookup_run E p h (key : string) :
  ∃ lookup h1,
    (if CacheEnabled (config p) then checkCache E key else mret None) (p, h)
    = (lookup, (p, h ++ h1)) ∧
    requests_sent h1 = [] ∧
    (CacheEnabled (config p) = false → lookup = None ∧ h1 = []).
Proof.
  destruct (CacheEnabled (config p)).
  - destruct (checkCache_run E key p h)
      as [[-> _]|(entry & _ & _ & [[_ ->]|[_ ->]])].
    + exists None, []. by rewrite app_nil_r.
    + by eexists _, [_].
    + by eexists _, [_].
  - exists None, []. by rewrite app_nil_r.
Qed.

(** One call of [ProcessRequest], by its answer: an error leaves the
    proxy as it was; a response is recorded once, with its own tokens
    and cost. *)
Lemma ProcessRequest_effect E req p h :
  ∃ new, snd (snd (ProcessRequest E req (p, h))) = h ++ new ∧
    Forall (fun r => r = filtered (config p) req) (requests_sent new) ∧
    match fst (ProcessRequest E req (p, h)) with
    | Err err =>
        fst (snd (ProcessRequest E req (p, h))) = p ∧
        (∀ limit, err = CostLimitExceeded limit →
           limit = CostLimit (config p) ∧
           (CostLimit (config p) <= EstimatedCost (metrics p))%Q ∧
           requests_sent new = [])
    | Ok response =>
        config (fst (snd (ProcessRequest E req (p, h)))) = config p ∧
        (∃ latency hit,
           metrics (fst (snd (ProcessRequest E req (p, h))))
           = recorded E (metrics p) latency (pr_TokensUsed response)
               (pr_Cost response) hit ∧
           (CacheEnabled (config p) = false → hit = false)) ∧
        (CacheEnabled (config p) = false →
           cache (fst (snd (ProcessRequest E req (p, h)))) = cache p)
    end.
Proof.
  destruct (Qle_bool (CostLimit (config p)) (EstimatedCost (metrics p))) eqn:Hle.
  - rewrite ProcessRequest_denied by done. cbn [fst snd].
    exists [EvNow (timeNow E h)]. split; [done|]. split; [constructor|].
    split; [done|]. intros limit [= <-]. by apply Qle_bool_iff in Hle.
  - rewrite (ProcessRequest_admitted E req p h Hle). cbn zeta.
    set (req' := filtered (config p) req).
    destruct (lookup_run E p (h ++ [EvNow (timeNow E h)]) (CacheKey req'))
      as (lookup & h1 & -> & Hsent1 & Hoff).
    destruct lookup as [cached|].
    + rewrite recordMetrics_run, since_run. cbn [fst snd config metrics cache].
      eexists. split; [by rewrite <- !app_assoc|].
      split.
      { rewrite requests_sent_app. cbn [requests_sent app].
        rewrite requests_sent_app, Hsent1. simpl. constructor. }
      split; [done|]. split.
      * exists 0, true. split; [done|]. intros Hoff'. by destruct (Hoff Hoff').
      * intros Hoff'. by destruct (Hoff Hoff').
    + destruct (makeRequestWithRetries_effect E req' p
                  ((h ++ [EvNow (timeNow E h)]) ++ h1))
        as (new & Hsnd & Hsent & Hnolimit).
      destruct (makeRequestWithRetries E req' (p, _)) as [answer s2].
      cbn [fst snd] in Hsnd, Hnolimit. subst s2.
      destruct answer as [response|err].
      * rewrite since_run, recordMetrics_run.
        destruct (CacheEnabled (config p)) eqn:Hen.
        -- match goal with
           | |- context [cacheResponse E ?k ?r (?q, ?hh)] =>
               destruct (cacheResponse_frame E k r q hh)
                 as (c & h2 & -> & Hh2)
           end.
           cbn [fst snd config metrics cache].
           eexists. split; [by rewrite <- !app_assoc|].
           split.
           { rewrite requests_sent_app. cbn [requests_sent app].
             rewrite !requests_sent_app, Hsent1. simpl.
             destruct Hh2 as [->| ->]; simpl; by rewrite ?app_nil_r. }
           split; [done|]. split; [|done].
           by eexists _, false.
        -- cbn [fst snd config metrics cache mret proxy_ret].
           eexists. split; [by rewrite <- !app_assoc|].
           split.
           { rewrite requests_sent_app. cbn [requests_sent app].
             rewrite !requests_sent_app, Hsent1. simpl.
             by rewrite app_nil_r. }
           split; [done|]. split; [|done].
           by eexists _, false.
      * cbn [fst snd].
        eexists. split; [by rewrite <- !app_assoc|].
        split.
        { rewrite requests_sent_app. cbn [requests_sent app].
          rewrite !requests_sent_app, Hsent1. done. }
        split; [done|]. intros limit ->. by destruct (Hnolimit limit).
Qed.

(** X9: a proxy made by [NewLLMProxy] from a configuration whose cost
    limit is zero or negative (the zero value of [ProxyConfig] among
    them) rejects every request from the first one on: its recorded cost
    starts at zero, which already reaches the limit. No request is ever
    sent and the proxy never changes. *)
Theorem NewLLMProxy_nonpositive_limit E cfg reqs h :
  (CostLimit cfg <= 0)%Q →
  ∃ new,
    processAll E reqs (NewLLMProxy cfg, h)
    = (replicate (length reqs) (Err (CostLimitExceeded (CostLimit cfg))),
       (NewLLMProxy cfg, h ++ new)) ∧
    attempts new = [] ∧ waits new = [].
Proof.
  intros Hle%Qle_bool_iff.
  by apply (processAll_denied E (CostLimit cfg) reqs (NewLLMProxy cfg) h).
Qed.

Lemma NewLLMProxy_nonpositive_limit_witness :
  ∃ new,
    processAll (example_env (Ok (example_response 1)) None)
      [example_request "k"; example_request ""] (NewLLMProxy zero_config, [])
    = (replicate 2 (Err (CostLimitExceeded 0)),
       (NewLLMProxy zero_config, [] ++ new)) ∧
    attempts new = [] ∧ waits new = [].
Proof.
  apply (NewLLMProxy_nonpositive_limit
           (example_env (Ok (example_response 1)) None) zero_config
           [example_request "k"; example_request ""] []).
  vm_compute. discriminate.
Defined.

(** X10: a call of [ProcessRequest] that returns an error leaves the
    proxy exactly as it was: nothing is recorded in the metrics (the
    request is not counted, no latency is added) and nothing is cached.
    The cost-limit error is returned only by the admission check, with
    the configured limit, before any request is sent. *)
Theorem ProcessRequest_error_keeps_proxy E req p h err :
  fst (ProcessRequest E req (p, h)) = Err err →
  fst (snd (ProcessRequest E req (p, h))) = p ∧
  (∀ limit, err = CostLimitExceeded limit →
     limit = CostLimit (config p) ∧
     (CostLimit (config p) <= EstimatedCost (metrics p))%Q ∧
     attempts (drop (length h) (snd (snd (ProcessRequest E req (p, h))))) = []).
Proof.
  intros Herr.
  destruct (ProcessRequest_effect E req p h) as (new & Hsnd & _ & Hout).
  rewrite Herr in Hout. destruct Hout as [Hp Hlimit].
  split; [done|]. intros limit ->.
  destruct (Hlimit limit eq_refl) as (-> & Hle & _). split; [done|]. split; [done|].
  apply Qle_bool_iff in Hle. rewrite ProcessRequest_denied by done.
  cbn [snd]. by rewrite drop_app_length.
Qed.

Lemma ProcessRequest_error_keeps_proxy_witness :
  fst (snd (ProcessRequest (example_env (Err "boom") None) (example_request "")
              (proxy_with_cost 49, [])))
  = proxy_with_cost 49.
Proof.
  apply (ProcessRequest_error_keeps_proxy (example_env (Err "boom") None)
           (example_request "") (proxy_with_cost 49) []
           (MaxRetriesExceeded (Some "boom"))).
  reflexivity.
Defined.


(** X12: with caching disabled, [ProcessRequest] neither reads nor
    writes the cache and never counts a cache hit; a request that passes
    the admission check gets exactly the answer of
    [makeRequestWithRetries] on the filtered request. *)
Theorem ProcessRequest_cache_disabled E req p h :
  CacheEnabled (config p) = false →
  cache (fst (snd (ProcessRequest E req (p, h)))) = cache p ∧
  CacheHits (metrics (fst (snd (ProcessRequest E req (p, h)))))
    = CacheHits (metrics p) ∧
  (¬ (CostLimit (config p) <= EstimatedCost (metrics p))%Q →
   fst (ProcessRequest E req (p, h))
   = fst (makeRequestWithRetries E (filtered (config p) req)
            (p, h ++ [EvNow (timeNow E h)]))).
Proof.
  intros Hoff. split; [|split].
  - destruct (ProcessRequest_effect E req p h) as (new & _ & _ & Hout).
    destruct (fst (ProcessRequest E req (p, h))).
    + destruct Hout as (_ & _ & Hcache). by apply Hcache.
    + destruct Hout as [-> _]. done.
  - destruct (ProcessRequest_effect E req p h) as (new & _ & _ & Hout).
    destruct (fst (ProcessRequest E req (p, h))).
    + destruct Hout as (_ & (latency & hit & -> & Hhit) & _).
      by rewrite (Hhit Hoff).
    + destruct Hout as [-> _]. done.
  - intros Hadm.
    assert (Qle_bool (CostLimit (config p)) (EstimatedCost (metrics p)) = false)
      as Hle.
    { destruct (Qle_bool _ _) eqn:Hb; [|done]. by apply Qle_bool_iff in Hb. }
    rewrite (ProcessRequest_admitted E req p h Hle). cbn zeta. rewrite Hoff.
    unfold mret, proxy_ret.
    destruct (makeRequestWithRetries E _ _) as [[response|err] [p2 h2]]; [|done].
    by rewrite since_run, recordMetrics_run.
Qed.

Lemma ProcessRequest_cache_disabled_witness :
  cache (fst (snd (ProcessRequest (example_env (Ok (example_response 1)) None)
                     (example_request "k") (NewLLMProxy config_uncached, []))))
    = ∅ ∧
  fst (ProcessRequest (example_env (Ok (example_response 1)) None)
         (example_request "k") (NewLLMProxy config_uncached, []))
    = Ok (example_response 1).
Proof.
  pose proof (ProcessRequest_cache_disabled
                (example_env (Ok (example_response 1)) None)
                (example_request "k") (NewLLMProxy config_uncached) [] eq_refl)
    as (Hcache & _ & Hans).
  split; [exact Hcache|].
  rewrite Hans; [reflexivity|]. vm_compute. intros Hle. by apply Hle.
Defined.

(** ** Counters over a sequence of calls *)

Lemma wrap64_range x : in_int64 (wrap64 x).
Proof.
  unfold in_int64, wrap64.
  pose proof (Z.mod_pos_bound (x + 2 ^ 63) (2 ^ 64) ltac:(lia)). lia.
Qed.

Lemma wrap64_add_l a b : wrap64 (wrap64 a + b) = wrap64 (a + b).
Proof.
  destruct (wrap64_unfold a) as [k ->].
  apply (wrap64_congr _ _ k). lia.
Qed.

Lemma processAll_step E req rest p h :
  ∃ p1 h1 a more s2,
    ProcessRequest E req (p, h) = (a, (p1, h1)) ∧
    processAll E rest (p1, h1) = (more, s2) ∧
    processAll E (req :: rest) (p, h) = (a :: more, s2) ∧
    match a with
    | Err _ => p1 = p
    | Ok response =>
        ∃ latency hit,
          metrics p1 = recorded E (metrics p) latency (pr_TokensUsed response)
                         (pr_Cost response) hit
    end.
Proof.
  pose proof (ProcessRequest_effect E req p h) as (new & _ & _ & Hout).
  rewrite processAll_cons.
  destruct (ProcessRequest E req (p, h)) as [a [p1 h1]]. cbn [fst snd] in Hout.
  destruct (processAll E rest (p1, h1)) as [more s2] eqn:Hrest.
  exists p1, h1, a, more, s2. split; [done|]. split; [done|]. split; [done|].
  destruct a as [response|err].
  - by destruct Hout as (_ & (latency & hit & Hm & _) & _); eauto.
  - by destruct Hout.
Qed.

Lemma processAll_counts_gen E reqs : ∀ p h,
  in_int64 (TotalRequests (metrics p)) →
  in_int64 (TokensUsed (metrics p)) →
  TotalRequests (metrics (fst (snd (processAll E reqs (p, h)))))
  = wrap64 (TotalRequests (metrics p)
            + Z.of_nat (length (tokens (fst (processAll E reqs (p, h)))))) ∧
  TokensUsed (metrics (fst (snd (processAll E reqs (p, h)))))
  = wrap64 (TokensUsed (metrics p)
            + sumZ (tokens (fst (processAll E reqs (p, h))))).
Proof.
  induction reqs as [|req rest IH]; intros p h HT HK.
  - simpl. rewrite !Z.add_0_r. by rewrite !wrap64_in_range.
  - destruct (processAll_step E req rest p h)
      as (p1 & h1 & a & more & s2 & _ & Hrest & -> & Ha).
    cbn [fst snd]. specialize (IH p1 h1). rewrite Hrest in IH. cbn [fst snd] in IH.
    destruct a as [response|err].
    + destruct Ha as (latency & hit & Hm).
      rewrite Hm in IH. cbn [recorded TotalRequests TokensUsed] in IH.
      destruct IH as [-> ->]; [apply wrap64_range..|].
      change (tokens (Ok response :: more))
        with (pr_TokensUsed response :: tokens more).
      unfold sumZ, add64. cbn [length fold_right].
      rewrite !wrap64_add_l. split; f_equal; lia.
    + subst p1. by apply IH.
Qed.

(** X13: over any sequence of [ProcessRequest] calls, [TotalRequests]
    grows by the number of calls that returned a response and
    [TokensUsed] by the sum of the tokens of these responses, both
    modulo 2^64 as [int64]. Calls that fail (rejected by the cost limit,
    retries used up, context done) are not counted: [TotalRequests] is
    the number of answered requests, not of requests received. *)
Theorem processAll_counts E reqs p h :
  in_int64 (TotalRequests (metrics p)) →
  in_int64 (TokensUsed (metrics p)) →
  let out := processAll E reqs (p, h) in
  TotalRequests (metrics (fst (snd out)))
  = wrap64 (TotalRequests (metrics p) + Z.of_nat (length (tokens (fst out)))) ∧
  TokensUsed (metrics (fst (snd out)))
  = wrap64 (TokensUsed (metrics p) + sumZ (tokens (fst out))).
Proof. apply processAll_counts_gen. Qed.

(** A call that is answered, after which the cost limit is reached
    and the next call is rejected. *)
Lemma processAll_counts_witness :
  TotalRequests (metrics (fst (snd
    (processAll (example_env (Ok (example_response 1)) None)
       [example_request ""; example_request "k"]
       (proxy_with_cost 49, [])))))
  = wrap64 (100 + 1) ∧
  TokensUsed (metrics (fst (snd
    (processAll (example_env (Ok (example_response 1)) None)
       [example_request ""; example_request "k"]
       (proxy_with_cost 49, [])))))
  = wrap64 (1200 + (12 + 0)).
Proof.
  assert (in_int64 (TotalRequests (metrics (proxy_with_cost 49)))) as HT
    by (unfold in_int64; simpl; lia).
  assert (in_int64 (TokensUsed (metrics (proxy_with_cost 49)))) as HK
    by (unfold in_int64; simpl; lia).
  exact (processAll_counts (example_env (Ok (example_response 1)) None)
           [example_request ""; example_request "k"] (proxy_with_cost 49) []
           HT HK).
Defined.

Lemma processAll_counters_gen E reqs : ∀ p h,
  0 <= CacheHits (metrics p) <= TotalRequests (metrics p) →
  TotalRequests (metrics p) + Z.of_nat (length reqs) < 2 ^ 63 →
  CacheHits (metrics p)
    <= CacheHits (metrics (fst (snd (processAll E reqs (p, h))))) ∧
  CacheHits (metrics (fst (snd (processAll E reqs (p, h)))))
    <= TotalRequests (metrics (fst (snd (processAll E reqs (p, h))))) ∧
  TotalRequests (metrics p)
    <= TotalRequests (metrics (fst (snd (processAll E reqs (p, h))))) ∧
  TotalRequests (metrics (fst (snd (processAll E reqs (p, h)))))
    <= TotalRequests (metrics p) + Z.of_nat (length reqs).
Proof.
  induction reqs as [|req rest IH]; intros p h Hinv Hroom.
  - simpl. lia.
  - destruct (processAll_step E req rest p h)
      as (p1 & h1 & a & more & s2 & _ & Hrest & -> & Ha).
    cbn [fst snd]. specialize (IH p1 h1). rewrite Hrest in IH. cbn [fst snd] in IH.
    cbn [length] in Hroom |- *.
    destruct a as [response|err].
    + destruct Ha as (latency & hit & Hm).
      assert (TotalRequests (metrics p1) = TotalRequests (metrics p) + 1) as HT.
      { rewrite Hm. cbn [recorded TotalRequests]. unfold add64.
        apply wrap64_in_range. unfold in_int64. lia. }
      assert (CacheHits (metrics p) <= CacheHits (metrics p1)
              <= CacheHits (metrics p) + 1) as HC.
      { rewrite Hm. cbn [recorded CacheHits]. destruct hit; [|lia].
        unfold add64. rewrite wrap64_in_range; [lia|]. unfold in_int64. lia. }
      destruct IH as (H1 & H2 & H3 & H4); lia.
    + subst p1. destruct IH as (H1 & H2 & H3 & H4); lia.
Qed.

(** X14: as long as the request counter cannot overflow, a sequence of
    [ProcessRequest] calls keeps [0 <= CacheHits <= TotalRequests];
    neither counter ever decreases, and [TotalRequests] grows by at
    most one per call. *)
Theorem processAll_counters E reqs p h :
  0 <= CacheHits (metrics p) <= TotalRequests (metrics p) →
  TotalRequests (metrics p) + Z.of_nat (length reqs) < 2 ^ 63 →
  let final := metrics (fst (snd (processAll E reqs (p, h)))) in
  CacheHits (metrics p) <= CacheHits final ∧
  CacheHits final <= TotalRequests final ∧
  TotalRequests (metrics p) <= TotalRequests final ∧
  TotalRequests final <= TotalRequests (metrics p) + Z.of_nat (length reqs).
Proof. apply processAll_counters_gen. Qed.

Lemma processAll_counters_witness :
  CacheHits (metrics (proxy_with_cost 49))
    <= CacheHits (metrics (fst (snd
         (processAll (example_env (Err "boom") None)
            [example_request "k"; example_request ""; example_request "k"]
            (proxy_with_cost 49, []))))) ∧
  CacheHits (metrics (fst (snd
         (processAll (example_env (Err "boom") None)
            [example_request "k"; example_request ""; example_request "k"]
            (proxy_with_cost 49, [])))))
    <= TotalRequests (metrics (fst (snd
         (processAll (example_env (Err "boom") None)
            [example_request "k"; example_request ""; example_request "k"]
            (proxy_with_cost 49, []))))).
Proof.
  pose proof (processAll_counters (example_env (Err "boom") None)
                [example_request "k"; example_request ""; example_request "k"]
                (proxy_with_cost 49) []) as Hinv.
  destruct Hinv as (H1 & H2 & _); [simpl; lia | simpl; lia |].
  split; [exact H1|exact H2].
Defined.

(** ** Settings that are never read *)

Lemma retryLoop_any_proxy E rc req p p' :
  (∀ h, makeRequest E h p' req = makeRequest E h p req) →
  ∀ left attempt lastErr h,
    retryLoop E rc req left attempt lastErr (p', h)
    = (fst (retryLoop E rc req left attempt lastErr (p, h)),
       (p', snd (snd (retryLoop E rc req left attempt lastErr (p, h))))).
Proof.
  intros Hsame.
  induction left as [|left IH]; intros attempt lastErr h; [done|].
  cbn [retryLoop]. unfold mbind, proxy_bind, getProxy, getHistory, emit, mret,
      proxy_ret.
  cbn [fst snd]. rewrite Hsame.
  destruct (makeRequest E h p req) as [response|err]; [done|].
  cbn [fst snd].
  destruct (ctxDone E _ _) as [e|]; [done|].
  apply IH.
Qed.

Lemma makeRequestWithRetries_any_config E req p p' h :
  cfg_RetryConfig (config p') = cfg_RetryConfig (config p) →
  (∀ h', makeRequest E h' p' req = makeRequest E h' p req) →
  makeRequestWithRetries E req (p', h)
  = (fst (makeRequestWithRetries E req (p, h)),
     (p', snd (snd (makeRequestWithRetries E req (p, h))))).
Proof.
  intros Hrc Hsame. unfold makeRequestWithRetries, mbind, proxy_bind, getProxy.
  cbn [fst]. rewrite Hrc. by apply retryLoop_any_proxy.
Qed.

Lemma cacheResponse_any_config E key response p p' h :
  cache p' = cache p →
  cacheResponse E key response (p', h)
  = (tt, ({| config := config p'; metrics := metrics p';
             cache := cache (fst (snd (cacheResponse E key response (p, h)))) |},
          snd (snd (cacheResponse E key response (p, h))))).
Proof.
  intros Hcache. unfold cacheResponse, now, setCache. unfold_state_monad.
  destruct (String.eqb key ""); cbn [fst snd cache]; [|by rewrite Hcache].
  rewrite <- Hcache. by destruct p'.
Qed.

Lemma checkCache_any_config E key p p' h :
  cache p' = cache p →
  checkCache E key (p', h)
  = (fst (checkCache E key (p, h)), (p', snd (snd (checkCache E key (p, h))))).
Proof.
  intros Hcache. unfold checkCache, now. unfold_state_monad. rewrite Hcache.
  destruct (String.eqb key ""); [done|].
  destruct (cache p !! key) as [entry|]; [|done].
  cbn [fst snd]. by destruct (_ <? _).
Qed.

(** X15: the body of [ProcessRequest] and of the functions defined with
    it never reads [APIKey], [RateLimit] or [CustomHeaders]; only the
    transport [p.makeRequest], which receives the proxy, can. When the
    transport answers the filtered request alike under both settings,
    changing the three settings changes neither the answer, nor the
    external calls made, nor the metrics and the cache afterwards; in
    particular the requests-per-minute limit is enforced nowhere in
    [ProcessRequest] itself. *)
Theorem ProcessRequest_unread_settings E req p h key rate headers :
  (∀ h', makeRequest E h' (withUnreadSettings p key rate headers)
           (filtered (config p) req)
         = makeRequest E h' p (filtered (config p) req)) →
  ProcessRequest E req (withUnreadSettings p key rate headers, h)
  = (fst (ProcessRequest E req (p, h)),
     (withUnreadSettings (fst (snd (ProcessRequest E req (p, h)))) key rate headers,
      snd (snd (ProcessRequest E req (p, h))))).
Proof.
  intros Hsame.
  set (p' := withUnreadSettings p key rate headers) in *.
  destruct (Qle_bool (CostLimit (config p)) (EstimatedCost (metrics p))) eqn:Hle.
  - rewrite (ProcessRequest_denied E req p h Hle).
    by rewrite (ProcessRequest_denied E req p' h Hle).
  - rewrite (ProcessRequest_admitted E req p h Hle).
    rewrite (ProcessRequest_admitted E req p' h Hle). cbn zeta.
    change (filtered (config p') req) with (filtered (config p) req).
    change (CacheEnabled (config p')) with (CacheEnabled (config p)).
    set (req' := filtered (config p) req) in *.
    set (h0 := h ++ [EvNow (timeNow E h)]).
    assert (∃ lookup h1,
      (if CacheEnabled (config p) then checkCache E (CacheKey req') else mret None)
        (p, h0) = (lookup, (p, h1)) ∧
      (if CacheEnabled (config p) then checkCache E (CacheKey req') else mret None)
        (p', h0) = (lookup, (p', h1))) as (lookup & h1 & -> & ->).
    { destruct (CacheEnabled (config p)); [|by eexists _, _].
      rewrite (checkCache_any_config E (CacheKey req') p p' h0 eq_refl).
      destruct (checkCache_run E (CacheKey req') p h0)
        as [[-> _]|(entry & _ & _ & [[_ ->]|[_ ->]])]; by eexists _, _. }
    destruct lookup as [cached|].
    + by rewrite !recordMetrics_run, !since_run.
    + rewrite (makeRequestWithRetries_any_config E req' p p' h1 eq_refl Hsame).
      destruct (makeRequestWithRetries_answer E req' p h1) as (new & Hsnd & _).
      destruct (makeRequestWithRetries E req' (p, h1)) as [answer s2].
      cbn [fst snd] in *. subst s2. cbn [snd].
      destruct answer as [response|err]; [|done].
      rewrite !since_run, !recordMetrics_run.
      destruct (CacheEnabled (config p)); [|done].
      change (metrics p') with (metrics p). change (cache p') with (cache p).
      match goal with
      | |- context [cacheResponse E ?k ?r
                      ({| config := config p'; metrics := ?m; cache := ?c |},
                       ?hh)] =>
          rewrite (cacheResponse_any_config E k r
                     {| config := config p; metrics := m; cache := c |}
                     {| config := config p'; metrics := m; cache := c |}
                     hh eq_refl);
          destruct (cacheResponse_frame E k r
                      {| config := config p; metrics := m; cache := c |} hh)
            as (c2 & h2 & -> & _)
      end.
      done.
Qed.

(** A proxy that limits nothing and sends no headers, against the
    example proxy: one and the same run. *)
Lemma ProcessRequest_unread_settings_witness :
  ProcessRequest (example_env (Ok (example_response 1)) None)
    (example_request "k") (withUnreadSettings example_proxy "other" 0 ∅, [])
  = (fst (ProcessRequest (example_env (Ok (example_response 1)) None)
            (example_request "k") (example_proxy, [])),
     (withUnreadSettings
        (fst (snd (ProcessRequest (example_env (Ok (example_response 1)) None)
                     (example_request "k") (example_proxy, []))))
        "other" 0 ∅,
      snd (snd (ProcessRequest (example_env (Ok (example_response 1)) None)
                  (example_request "k") (example_proxy, []))))).
Proof.
  apply (ProcessRequest_unread_settings
           (example_env (Ok (example_response 1)) None)
           (example_request "k") example_proxy [] "other" 0 ∅).
  reflexivity.
Defined.

(** ** The whole backoff schedule *)

Lemma retryLoop_all_fail E rc req p :
  (∀ h, is_ok (makeRequest E h p req) = false) →
  (∀ h d, ctxDone E h d = None) →
  ∀ left attempt lastErr h,
    ∃ errs, length errs = left ∧
      retryLoop E rc req left attempt lastErr (p, h)
      = (Err (MaxRetriesExceeded (lastFailure lastErr errs)),
         (p, h ++ failedRounds rc req attempt errs)).
Proof.
  intros Hfail Hwait.
  induction left as [|left IH]; intros attempt lastErr h.
  - exists []. simpl. by rewrite app_nil_r.
  - cbn [retryLoop]. unfold mbind, proxy_bind, getProxy, getHistory, emit, mret,
      proxy_ret.
    cbn [fst snd].
    pose proof (Hfail h) as Hans.
    destruct (makeRequest E h p req) as [response|err]; [done|].
    cbn [fst snd]. rewrite Hwait.
    destruct (IH (attempt + 1) (Some err)
                ((h ++ [EvMakeRequest attempt req (Err err)]) ++
                 [EvSelect (backoffFor rc attempt) None]))
      as (errs & Hlen & ->).
    exists (err :: errs). split; [simpl; by rewrite Hlen|].
    rewrite lastFailure_cons. cbn [failedRounds]. by rewrite <- !app_assoc.
Qed.

Lemma waits_failedRounds_exact rc req errs : ∀ attempt,
  0 <= attempt →
  (∀ i, attempt <= i < attempt + Z.of_nat (length errs) →
        in_int64 (BackoffBase rc * 2 ^ i)) →
  waits (failedRounds rc req attempt errs)
  = map (fun i => BackoffBase rc * 2 ^ i) (seqZ attempt (Z.of_nat (length errs))).
Proof.
  induction errs as [|err errs IH]; intros attempt Hpos Hfit; [done|].
  cbn [failedRounds waits length].
  rewrite (seqZ_cons attempt) by lia. cbn [map].
  rewrite backoffFor_exact by (try apply Hfit; cbn [length]; lia).
  f_equal.
  replace (Z.pred (Z.of_nat (S (length errs)))) with (Z.of_nat (length errs))
    by lia.
  replace (Z.succ attempt) with (attempt + 1) by lia.
  apply IH; [lia|]. intros i Hi. apply Hfit. cbn [length]. lia.
Qed.

Lemma sum_doubling b (n : nat) : ∀ a,
  0 <= a →
  sumZ (map (fun i => b * 2 ^ i) (seqZ a (Z.of_nat n)))
  = b * 2 ^ a * (2 ^ Z.of_nat n - 1).
Proof.
  induction n as [|n IH]; intros a Ha.
  - simpl. lia.
  - rewrite (seqZ_cons a) by lia.
    replace (Z.pred (Z.of_nat (S n))) with (Z.of_nat n) by lia.
    cbn [map]. unfold sumZ in *. cbn [fold_right].
    rewrite IH by lia.
    rewrite Nat2Z.inj_succ, !Z.pow_succ_r by lia. ring.
Qed.

(** X16: the backoff schedule when every attempt fails and the context
    stays open. With [n >= 1] attempts allowed, a non-negative base
    delay and a last delay [BackoffBase * 2^(n-1)] that fits 64 bits,
    [makeRequestWithRetries] makes exactly [n] attempts, waits
    [BackoffBase * 2^i] after attempt [i] for every [i < n] (the last
    attempt included), so [BackoffBase * (2^n - 1)] in total, and then
    returns "max retries exceeded" wrapping a failure. *)
Theorem makeRequestWithRetries_schedule E req p h (n : nat) :
  let rc := cfg_RetryConfig (config p) in
  MaxRetries rc = Z.of_nat n →
  (0 < n)%nat →
  0 <= BackoffBase rc →
  BackoffBase rc * 2 ^ (Z.of_nat n - 1) < 2 ^ 63 →
  (∀ h', is_ok (makeRequest E h' p req) = false) →
  (∀ h' d, ctxDone E h' d = None) →
  ∃ new err,
    makeRequestWithRetries E req (p, h)
    = (Err (MaxRetriesExceeded (Some err)), (p, h ++ new)) ∧
    attempts new = seqZ 0 (Z.of_nat n) ∧
    waits new = map (fun i => BackoffBase rc * 2 ^ i) (seqZ 0 (Z.of_nat n)) ∧
    sumZ (waits new) = BackoffBase rc * (2 ^ Z.of_nat n - 1).
Proof.
  intros rc Hmax Hn Hbase Hlast Hfail Hwait.
  unfold makeRequestWithRetries, mbind, proxy_bind, getProxy. cbn [fst].
  fold rc. rewrite Hmax, Nat2Z.id.
  destruct (retryLoop_all_fail E rc req p Hfail Hwait n 0 None h)
    as (errs & Hlen & ->).
  assert (∃ err, lastFailure None errs = Some err) as [err Herr].
  { unfold lastFailure. destruct errs as [|e errs] using rev_ind.
    - simpl in Hlen. lia.
    - rewrite last_snoc. by eexists. }
  assert (waits (failedRounds rc req 0 errs)
          = map (fun i => BackoffBase rc * 2 ^ i) (seqZ 0 (Z.of_nat n))) as Hw.
  { rewrite <- Hlen. apply waits_failedRounds_exact; [lia|].
    intros i Hi. unfold in_int64.
    assert (2 ^ i <= 2 ^ (Z.of_nat n - 1)) by (apply Z.pow_le_mono_r; lia).
    assert (0 < 2 ^ i) by (apply Z.pow_pos_nonneg; lia).
    nia. }
  exists (failedRounds rc req 0 errs), err. rewrite Herr.
  split; [done|]. split; [by rewrite attempts_failedRounds, Hlen|].
  split; [done|].
  rewrite Hw, sum_doubling by lia. simpl. lia.
Qed.

(** Three attempts with a base of one second: 1 s, 2 s and 4 s. *)
Lemma makeRequestWithRetries_schedule_witness :
  ∃ new err,
    makeRequestWithRetries (example_env (Err "boom") None) (example_request "")
      (example_proxy, [])
    = (Err (MaxRetriesExceeded (Some err)), (example_proxy, [] ++ new)) ∧
    attempts new = seqZ 0 (Z.of_nat 3) ∧
    waits new = map (fun i => 1000000000 * 2 ^ i) (seqZ 0 (Z.of_nat 3)) ∧
    sumZ (waits new) = 1000000000 * (2 ^ Z.of_nat 3 - 1).
Proof.
  apply (makeRequestWithRetries_schedule (example_env (Err "boom") None)
           (example_request "") example_proxy [] 3);
    try reflexivity; simpl; lia.
Defined.

End ProxyComposition.

(** * Properties of the HTTP client example *)

Section ClientProperties.
Import Client.

Lemma sumZ_sublist (l k : list Z) :
  sublist l k → Forall (fun x => 0 <= x) k → sumZ l <= sumZ k.
Proof.
  unfold sumZ.
  induction 1 as [|x l k _ IH|x l k _ IH]; intros Hpos; simpl.
  - lia.
  - apply Forall_cons in Hpos as [_ Hk]. specialize (IH Hk). lia.
  - apply Forall_cons in Hpos as [Hx Hk]. specialize (IH Hk). lia.
Qed.

(** The events of the loop from one iteration on: [body], then the
    deferred closes. *)
Lemma attemptLoop_shape E left : ∀ attempt deferred h,
  ∃ body,
    snd (attemptLoop E left attempt deferred h)
      = h ++ body ++ map EvClose (reverse (responded body) ++ deferred) ∧
    closes body = [] ∧
    sublist (sent body) (seqZ attempt (Z.of_nat left)) ∧
    sublist (failed body) (seqZ attempt (Z.of_nat left)) ∧
    sleeps body = map sleepFor (failed body) ∧
    ends_with (fst (attemptLoop E left attempt deferred h)) body.
Proof.
  induction left as [|left IH]; intros attempt deferred h.
  - exists []. by repeat split.
  - cbn [attemptLoop]. rewrite (seqZ_cons attempt) by lia.
    replace (Z.pred (Z.of_nat (S left))) with (Z.of_nat left) by lia.
    replace (Z.succ attempt) with (attempt + 1) by lia.
    destruct (newRequest E h) eqn:Hnew.
    + destruct (clientDo E _) as [resp|err] eqn:Hdo.
      * destruct (StatusCode resp =? StatusOK) eqn:Hst.
        -- destruct (decodeBody E _ resp) as [v|] eqn:Hdec.
           ++ exists [EvNewRequest attempt true; EvDo attempt (Ok resp);
                      EvDecode attempt (Some v)].
              unfold runDeferred. cbn [fst snd].
              split; [by rewrite <- !app_assoc|]. split; [done|].
              split; [apply sublist_skip, sublist_nil_l|].
              split; [apply sublist_nil_l|]. split; [done|].
              exists [EvNewRequest attempt true], attempt, resp.
              split; [done|]. by apply Z.eqb_eq.
           ++ destruct (IH (attempt + 1) (attempt :: deferred)
                          (((h ++ [EvNewRequest attempt true]) ++
                            [EvDo attempt (Ok resp)]) ++
                           [EvDecode attempt None]))
                as (body & Hsnd & Hcl & Hsent & Hfail & Hsl & Hend).
              exists (EvNewRequest attempt true :: EvDo attempt (Ok resp)
                      :: EvDecode attempt None :: body).
              split.
              { rewrite Hsnd. cbn [responded]. rewrite reverse_cons.
                by rewrite <- !app_assoc. }
              split; [done|]. split; [by apply sublist_skip|].
              split; [by apply sublist_cons|]. split; [done|].
              destruct (fst (attemptLoop E left _ _ _)); [|done].
              destruct Hend as (pre & i & r & -> & Hok).
              by exists (EvNewRequest attempt true :: EvDo attempt (Ok resp)
                         :: EvDecode attempt None :: pre), i, r.
        -- destruct (IH (attempt + 1) (attempt :: deferred)
                       ((h ++ [EvNewRequest attempt true]) ++
                        [EvDo attempt (Ok resp)]))
             as (body & Hsnd & Hcl & Hsent & Hfail & Hsl & Hend).
           exists (EvNewRequest attempt true :: EvDo attempt (Ok resp) :: body).
           split.
           { rewrite Hsnd. cbn [responded]. rewrite reverse_cons.
             by rewrite <- !app_assoc. }
           split; [done|]. split; [by apply sublist_skip|].
           split; [by apply sublist_cons|]. split; [done|].
           destruct (fst (attemptLoop E left _ _ _)); [|done].
           destruct Hend as (pre & i & r & -> & Hok).
           by exists (EvNewRequest attempt true :: EvDo attempt (Ok resp) :: pre),
                     i, r.
      * destruct (IH (attempt + 1) deferred
                    (((h ++ [EvNewRequest attempt true]) ++
                      [EvDo attempt (Err err)]) ++
                     [EvSleep (sleepFor attempt)]))
          as (body & Hsnd & Hcl & Hsent & Hfail & Hsl & Hend).
        exists (EvNewRequest attempt true :: EvDo attempt (Err err)
                :: EvSleep (sleepFor attempt) :: body).
        split; [rewrite Hsnd; by rewrite <- !app_assoc|].
        split; [done|]. split; [by apply sublist_skip|].
        split; [by apply sublist_skip|].
        split; [cbn [sleeps failed map]; by rewrite Hsl|].
        destruct (fst (attemptLoop E left _ _ _)); [|done].
        destruct Hend as (pre & i & r & -> & Hok).
        by exists (EvNewRequest attempt true :: EvDo attempt (Err err)
                   :: EvSleep (sleepFor attempt) :: pre), i, r.
    + destruct (IH (attempt + 1) deferred (h ++ [EvNewRequest attempt false]))
        as (body & Hsnd & Hcl & Hsent & Hfail & Hsl & Hend).
      exists (EvNewRequest attempt false :: body).
      split; [rewrite Hsnd; by rewrite <- !app_assoc|].
      split; [done|]. split; [by apply sublist_cons|].
      split; [by apply sublist_cons|]. split; [done|].
      destruct (fst (attemptLoop E left _ _ _)); [|done].
      destruct Hend as (pre & i & r & -> & Hok).
      by exists (EvNewRequest attempt false :: pre), i, r.
Qed.

Lemma sleepFor_small i : i ∈ [0; 1; 2] → sleepFor i = i * i * Second.
Proof.
  intros Hi. repeat (apply elem_of_cons in Hi as [->|Hi]); try reflexivity.
  by apply elem_of_nil in Hi.
Qed.

Lemma makeAPIRequest_shape E prompt h :
  ∃ body,
    snd (makeAPIRequest E prompt h)
      = h ++ body ++ map EvClose (reverse (responded body)) ∧
    closes body = [] ∧
    sublist (sent body) [0; 1; 2] ∧
    sublist (failed body) [0; 1; 2] ∧
    sleeps body = map sleepFor (failed body) ∧
    ends_with (fst (makeAPIRequest E prompt h)) body.
Proof.
  destruct (attemptLoop_shape E 3 0 [] h)
    as (body & Hsnd & Hcl & Hsent & Hfail & Hsl & Hend).
  exists body. rewrite app_nil_r in Hsnd. by repeat split.
Qed.

(** X17: [makeAPIRequest] calls [client.Do] at most three times, for
    attempt indices taken in order from 0, 1, 2. It sleeps only after a
    [client.Do] that returned an error, and then for the square of the
    attempt index in seconds: nothing after attempt 0, one second after
    attempt 1, four seconds after attempt 2. The total time slept is at
    most five seconds. *)
Theorem makeAPIRequest_schedule E prompt h :
  ∃ body,
    snd (makeAPIRequest E prompt h)
      = h ++ body ++ map EvClose (reverse (responded body)) ∧
    sublist (sent body) [0; 1; 2] ∧
    (length (sent body) <= 3)%nat ∧
    sleeps body = map (fun i => i * i * Second) (failed body) ∧
    sublist (sleeps body) [0; 1000000000; 4000000000] ∧
    sumZ (sleeps body) <= 5000000000.
Proof.
  destruct (makeAPIRequest_shape E prompt h)
    as (body & Hsnd & _ & Hsent & Hfail & Hsl & _).
  exists body. split; [done|]. split; [done|].
  split; [by apply sublist_length in Hsent|].
  assert (sublist (sleeps body) [0; 1000000000; 4000000000]) as Hsub.
  { rewrite Hsl. change [0; 1000000000; 4000000000] with (sleepFor <$> [0; 1; 2]).
    by apply fmap_sublist. }
  split; [|split; [done|]].
  - rewrite Hsl. apply map_ext_in. intros i Hi%list_elem_of_In.
    apply sleepFor_small. by apply (elem_of_sublist _ _ _ Hi).
  - apply (sumZ_sublist _ _ Hsub). repeat constructor; lia.
Qed.

Lemma closes_app (a b : list event) : closes (a ++ b) = closes a ++ closes b.
Proof.
  induction a as [|[i ok|i ans|i ans|d|i] a IH]; simpl; [done|..];
    by rewrite ?IH.
Qed.

Lemma closes_deferred (l : list Z) : closes (map EvClose l) = l.
Proof. induction l as [|i l IH]; simpl; [done|]. by rewrite IH. Qed.

(** X18: the response bodies are closed only when [makeAPIRequest]
    returns. No body is closed before the last attempt is over, and at
    the return every response received, the non-200 ones of earlier
    attempts included, is closed exactly once, the most recent first. *)
Theorem makeAPIRequest_closes E prompt h :
  ∃ body,
    snd (makeAPIRequest E prompt h)
      = h ++ body ++ map EvClose (reverse (responded body)) ∧
    closes body = [] ∧
    closes (body ++ map EvClose (reverse (responded body)))
      = reverse (responded body).
Proof.
  destruct (makeAPIRequest_shape E prompt h) as (body & Hsnd & Hcl & _).
  exists body. split; [done|]. split; [done|].
  by rewrite closes_app, Hcl, closes_deferred.
Qed.

(** X19: the answer of [makeAPIRequest]. A response is returned only
    for an attempt whose [client.Do] answered with status 200 and whose
    body decoded, and that decoding is the last thing done before the
    deferred closes. Every failure returns the same error, "failed
    after 3 retries": the errors of [client.Do], the status codes and
    the decoding errors met on the way are not reported. *)
Theorem makeAPIRequest_answer E prompt h :
  ∃ body,
    snd (makeAPIRequest E prompt h)
      = h ++ body ++ map EvClose (reverse (responded body)) ∧
    match fst (makeAPIRequest E prompt h) with
    | Ok llmResponse =>
        ∃ pre i resp,
          body = pre ++ [EvDo i (Ok resp); EvDecode i (Some llmResponse)] ∧
          StatusCode resp = 200
    | Err msg => msg = "failed after 3 retries"
    end.
Proof.
  destruct (makeAPIRequest_shape E prompt h) as (body & Hsnd & _ & _ & _ & _ & Hend).
  by exists body.
Qed.

(** X20: two ways of failing. When every [client.Do] returns an error
    (an unreachable server, a context that is already cancelled), the
    call makes all three attempts and sleeps 0 s, 1 s and 4 s, the last
    sleep after the final attempt, before it returns the error; no body
    is closed. When the request cannot even be created, the three
    iterations go by without any [client.Do] and without sleeping. *)
Theorem makeAPIRequest_failures E prompt h :
  ((∀ h', newRequest E h' = true) →
   (∀ h', is_ok (clientDo E h') = false) →
   ∃ e0 e1 e2,
     makeAPIRequest E prompt h
     = (Err "failed after 3 retries",
        h ++ [EvNewRequest 0 true; EvDo 0 (Err e0); EvSleep 0;
              EvNewRequest 1 true; EvDo 1 (Err e1); EvSleep 1000000000;
              EvNewRequest 2 true; EvDo 2 (Err e2); EvSleep 4000000000]))
  ∧
  ((∀ h', newRequest E h' = false) →
   makeAPIRequest E prompt h
   = (Err "failed after 3 retries",
      h ++ [EvNewRequest 0 false; EvNewRequest 1 false; EvNewRequest 2 false])).
Proof.
  split.
  - intros Hnew Hdo. unfold makeAPIRequest. cbn [attemptLoop].
    rewrite Hnew.
    pose proof (Hdo (h ++ [EvNewRequest 0 true])) as H0.
    destruct (clientDo E (h ++ [EvNewRequest 0 true])) as [r0|e0]; [done|].
    rewrite Hnew.
    match goal with |- context [clientDo E ?h1] =>
      pose proof (Hdo h1) as H1; destruct (clientDo E h1) as [r1|e1]; [done|]
    end.
    rewrite Hnew.
    match goal with |- context [clientDo E ?h2] =>
      pose proof (Hdo h2) as H2; destruct (clientDo E h2) as [r2|e2]; [done|]
    end.
    exists e0, e1, e2. unfold runDeferred. simpl.
    by rewrite app_nil_r, <- !app_assoc.
  - intros Hnew. unfold makeAPIRequest. cbn [attemptLoop].
    rewrite Hnew, Hnew, Hnew. unfold runDeferred. simpl.
    by rewrite app_nil_r, <- !app_assoc.
Qed.

Lemma makeAPIRequest_failures_witness :
  (∃ e0 e1 e2,
     makeAPIRequest env_unreachable "What is the capital of France?" []
     = (Err "failed after 3 retries",
        [] ++ [EvNewRequest 0 true; EvDo 0 (Err e0); EvSleep 0;
               EvNewRequest 1 true; EvDo 1 (Err e1); EvSleep 1000000000;
               EvNewRequest 2 true; EvDo 2 (Err e2); EvSleep 4000000000]))
  ∧
  makeAPIRequest {| newRequest := fun _ => false;
                    clientDo := clientDo env_third_time;
                    decodeBody := decodeBody env_third_time |}
    "What is the capital of France?" []
  = (Err "failed after 3 retries",
     [] ++ [EvNewRequest 0 false; EvNewRequest 1 false; EvNewRequest 2 false]).
Proof.
  split.
  - apply (proj1 (makeAPIRequest_failures env_unreachable
                    "What is the capital of France?" [])); reflexivity.
  - apply (proj2 (makeAPIRequest_failures
                    {| newRequest := fun _ => false;
                       clientDo := clientDo env_third_time;
                       decodeBody := decodeBody env_third_time |}
                    "What is the capital of France?" [])); reflexivity.
Defined.

End ClientProperties.
